(** * mapenv: decoding environment variables into a structured record

  A shallow embedding of [decode.go] (package [mapenv]) and of the part of
  Go's [reflect], [strconv], [math] and [time] packages that it calls.

  - Go's [reflect.Value] handles are modelled over an explicit heap, so
    that addressability, nil references and in-place writes are the ones
    of the program.
  - A panic of the Go runtime is an outcome of its own ([Panic]); the
    [error] a Go function returns is an ordinary result.
  - The environment of the process is a finite map from names to values.
  - The parsers of the standard library that the program treats as black
    boxes ([strconv.ParseFloat], [strconv.ParseComplex], [time.Parse],
    [json.Unmarshal]) are the fields of a record [Lib]; every general
    statement holds for any such record. *)

From Stdlib Require Import ZArith String Ascii List Lia Bool.
From Stdlib Require Import Floats.SpecFloat.
From stdpp Require Import base option list gmap strings pretty.

Set Default Proof Using "Type".
#[local] Set Warnings "-register-all".

(* ===================================================================== *)
(** * Types, as [reflect] sees them *)
(* ===================================================================== *)

Module reflect.

(** [reflect.Kind], in the order of the Go declaration. *)
Inductive Kind : Set :=
| Invalid | Bool
| Int | Int8 | Int16 | Int32 | Int64
| Uint | Uint8 | Uint16 | Uint32 | Uint64 | Uintptr
| Float32 | Float64 | Complex64 | Complex128
| Array | Chan | Func | Interface | Map | Ptr | Slice
| String | Struct | UnsafePointer.

(** [Kind.String]. *)
Definition Kind_String (k : Kind) : string :=
  match k with
  | Invalid => "invalid" | Bool => "bool"
  | Int => "int" | Int8 => "int8" | Int16 => "int16"
  | Int32 => "int32" | Int64 => "int64"
  | Uint => "uint" | Uint8 => "uint8" | Uint16 => "uint16"
  | Uint32 => "uint32" | Uint64 => "uint64" | Uintptr => "uintptr"
  | Float32 => "float32" | Float64 => "float64"
  | Complex64 => "complex64" | Complex128 => "complex128"
  | Array => "array" | Chan => "chan" | Func => "func"
  | Interface => "interface" | Map => "map" | Ptr => "ptr"
  | Slice => "slice" | String => "string" | Struct => "struct"
  | UnsafePointer => "unsafe.Pointer"
  end.

Definition Kind_eqb (a b : Kind) : bool :=
  match a, b with
  | Invalid, Invalid | Bool, Bool | Int, Int | Int8, Int8 | Int16, Int16
  | Int32, Int32 | Int64, Int64 | Uint, Uint | Uint8, Uint8
  | Uint16, Uint16 | Uint32, Uint32 | Uint64, Uint64 | Uintptr, Uintptr
  | Float32, Float32 | Float64, Float64 | Complex64, Complex64
  | Complex128, Complex128 | Array, Array | Chan, Chan | Func, Func
  | Interface, Interface | Map, Map | Ptr, Ptr | Slice, Slice
  | String, String | Struct, Struct | UnsafePointer, UnsafePointer => true
  | _, _ => false
  end.

(** A struct tag, by the key/value pairs it holds, in their order. *)
Definition StructTag : Type := list (string * string).

(** [StructTag.Get]: the value of the first pair with that key, the empty
    string when there is none. *)
Fixpoint Tag_Get (tag : StructTag) (key : string) : string :=
  match tag with
  | [] => ""
  | (k, v) :: rest => if String.eqb k key then v else Tag_Get rest key
  end.

(** [reflect.StructField], over the representation [T] of types. *)
Record StructField_ (T : Type) : Type := mkField {
  Name : string;
  PkgPath : string;      (* empty for an exported field *)
  Tag : StructTag;
  Typ : T
}.
Arguments mkField {T} _ _ _ _.
Arguments Name {T} _.
Arguments PkgPath {T} _.
Arguments Tag {T} _.
Arguments Typ {T} _.

(** The types without components. *)
Inductive basic : Set :=
| Tbool
| Tint | Tint8 | Tint16 | Tint32 | Tint64
| Tuint | Tuint8 | Tuint16 | Tuint32 | Tuint64 | Tuintptr
| Tfloat32 | Tfloat64 | Tcomplex64 | Tcomplex128
| Tstring | TunsafePointer.

(** Go types, as finite trees (a type that refers to itself through a
    pointer has no such tree and is outside the model).  [TTime] is
    [time.Time], the one named type the program singles out. *)
Inductive type : Type :=
| TBasic (b : basic)
| TPtr (elem : type)
| TStruct (name : string) (fields : list (StructField_ type))
| TTime
| TArray (len : nat) (elem : type)
| TSlice (elem : type)
| TMap (key elem : type)
| TChan (elem : type)
| TFunc
| TInterface.

Abbreviation StructField := (StructField_ type).

Definition basic_Kind (b : basic) : Kind :=
  match b with
  | Tbool => Bool
  | Tint => Int | Tint8 => Int8 | Tint16 => Int16
  | Tint32 => Int32 | Tint64 => Int64
  | Tuint => Uint | Tuint8 => Uint8 | Tuint16 => Uint16
  | Tuint32 => Uint32 | Tuint64 => Uint64 | Tuintptr => Uintptr
  | Tfloat32 => Float32 | Tfloat64 => Float64
  | Tcomplex64 => Complex64 | Tcomplex128 => Complex128
  | Tstring => String | TunsafePointer => UnsafePointer
  end.

(** [Type.Kind]. *)
Definition Type_Kind (t : type) : Kind :=
  match t with
  | TBasic b => basic_Kind b
  | TPtr _ => Ptr
  | TStruct _ _ => Struct
  | TTime => Struct
  | TArray _ _ => Array
  | TSlice _ => Slice
  | TMap _ _ => Map
  | TChan _ => Chan
  | TFunc => Func
  | TInterface => Interface
  end.

(** The fields of [time.Time]: three, none of them exported. *)
Definition Time_fields : list StructField :=
  [ mkField "wall" "time" [] (TBasic Tuint64);
    mkField "ext" "time" [] (TBasic Tint64);
    mkField "loc" "time" [] (TPtr (TStruct "time.Location" [])) ].

(** The fields that [Type.NumField] counts and [Type.Field] returns. *)
Definition Type_fields (t : type) : list StructField :=
  match t with
  | TStruct _ fs => fs
  | TTime => Time_fields
  | _ => []
  end.

End reflect.

(* ===================================================================== *)
(** * Key resolution: [getFieldTags] and the probe of the environment *)
(* ===================================================================== *)

Module strings.

(** [strings.Split s sep] for a separator of one byte: the pieces of [s]
    between the separators, never an empty list. *)
Fixpoint Split (s : string) (sep : ascii) : list string :=
  match s with
  | EmptyString => [EmptyString]
  | String c r =>
      if Ascii.eqb c sep then EmptyString :: Split r sep
      else match Split r sep with
           | x :: xs => String c x :: xs
           | [] => [String c EmptyString]
           end
  end.

End strings.

Definition mapEnvTagName : string := "mpe".

(** The first loop of [getFieldTags]: the pieces that are not empty. *)
Fixpoint nonempty_pieces (l : list string) : list string :=
  match l with
  | [] => []
  | s :: rest =>
      if (0 <? String.length s)%nat then s :: nonempty_pieces rest
      else nonempty_pieces rest
  end.

Definition getFieldTags {T} (t : reflect.StructField_ T) : list string :=
  let res : list string := [] in
  let res :=
    let tags := reflect.Tag_Get (reflect.Tag t) mapEnvTagName in
    if (0 <? String.length tags)%nat
    then res ++ nonempty_pieces (strings.Split tags ",")
    else res in
  (* ignore json tags and field name if mpe tag is present *)
  if (0 <? length res)%nat then res else
  let res :=
    let tags := reflect.Tag_Get (reflect.Tag t) "json" in
    if (0 <? String.length tags)%nat
    then
      let jsonTags := strings.Split tags "," in
      match jsonTags with
      | j0 :: _ => if (0 <? String.length j0)%nat then res ++ [j0] else res
      | [] => res
      end
    else res in
  (* ignore field name if json tag is present *)
  if (0 <? length res)%nat then res else
  res ++ [reflect.Name t].

(** The environment of the process; [os.LookupEnv] is the lookup. *)
Abbreviation environ := (gmap string string).

Definition LookupEnv (env : environ) (key : string) : string * bool :=
  match env !! key with
  | Some v => (v, true)
  | None => (EmptyString, false)
  end.

(** The inner loop of [Decode]
    [for _, tag = range fieldTags { if s, ok = os.LookupEnv(tag); ok { break } }]
    from the values [s] and [tag] have before it. *)
Fixpoint probe (env : environ) (fieldTags : list string) (s tag : string)
  : string * string :=
  match fieldTags with
  | [] => (s, tag)
  | tg :: rest =>
      let '(s', ok) := LookupEnv env tg in
      if ok then (s', tg) else probe env rest s' tg
  end.

(* ===================================================================== *)
(** * Errors *)
(* ===================================================================== *)

(** The sentinel errors of [strconv]. *)
Inductive NumErr : Set := ErrSyntax | ErrRange.

(** The values of Go's [error] interface that the program can hold, and
    the program's own [DecodeError] (a struct with an [error] inside). *)
Inductive error : Type :=
| NumError (Func Num : string) (Err : NumErr)   (* *strconv.NumError *)
| ParseError (Value Message : string)           (* *time.ParseError *)
| JSONError (msg : string)                      (* the errors of encoding/json *)
| Errorf (msg : string)                         (* fmt.Errorf *)
| ofDecodeError (d : DecodeError)
with DecodeError : Type :=
| mkDecodeError (description field : string) (err : option error).

Definition newDecodeError (description field : string) (err : option error)
  : DecodeError :=
  mkDecodeError description field err.

Definition Description (d : DecodeError) : string :=
  match d with mkDecodeError description _ _ => description end.

Definition Field (d : DecodeError) : string :=
  match d with mkDecodeError _ field _ => field end.

Definition Err (d : DecodeError) : option error :=
  match d with mkDecodeError _ _ err => err end.

(* ===================================================================== *)
(** * [strconv]: the integer and boolean parsers *)
(* ===================================================================== *)

Module strconv.

Open Scope Z_scope.

(** [strconv.IntSize]: the size of [int] and [uint] on a 64-bit target. *)
Definition IntSize : Z := 64.

Definition syntaxError (fn str : string) : error := NumError fn str ErrSyntax.
Definition rangeError (fn str : string) : error := NumError fn str ErrRange.

Definition maxUint64 : Z := 2 ^ 64 - 1.

(** The digit a byte stands for in [ParseUint]: ['0'..'9'], then the
    letters of either case from 10 on; [None] for any other byte. *)
Definition digit_of (c : ascii) : option Z :=
  let n := Z.of_nat (nat_of_ascii c) in
  if (48 <=? n) && (n <=? 57) then Some (n - 48)
  else if (97 <=? n) && (n <=? 122) then Some (n - 97 + 10)
  else if (65 <=? n) && (n <=? 90) then Some (n - 65 + 10)
  else None.

(** The loop of [ParseUint] for base 10 (no underscores: they are for base
    0 only), from the accumulator [n]. *)
Fixpoint ParseUint_loop (fn s0 : string) (bitSize : Z) (s : string) (n : Z)
  : Z * option error :=
  match s with
  | EmptyString => (n, None)
  | String c rest =>
      match digit_of c with
      | None => (0, Some (syntaxError fn s0))
      | Some d =>
          let maxVal := 2 ^ bitSize - 1 in
          if 10 <=? d then (0, Some (syntaxError fn s0))
          else if maxUint64 / 10 + 1 <=? n
          then (maxVal, Some (rangeError fn s0))     (* n*base overflows *)
          else
            let n := n * 10 in
            let n1 := (n + d) mod 2 ^ 64 in
            if (n1 <? n) || (maxVal <? n1)
            then (maxVal, Some (rangeError fn s0))   (* n+d overflows *)
            else ParseUint_loop fn s0 bitSize rest n1
      end
  end.

(** [strconv.ParseUint(s, 10, bitSize)], for [0 < bitSize <= 64]. *)
Definition ParseUint (s : string) (bitSize : Z) : Z * option error :=
  match s with
  | EmptyString => (0, Some (syntaxError "ParseUint" s))
  | _ => ParseUint_loop "ParseUint" s bitSize s 0
  end.

(** [strconv.ParseInt(s, 10, bitSize)], for [0 < bitSize <= 64]. *)
Definition ParseInt (s : string) (bitSize : Z) : Z * option error :=
  match s with
  | EmptyString => (0, Some (syntaxError "ParseInt" s))
  | String c0 rest =>
      let s0 := s in
      (* Pick off leading sign. *)
      let '(neg, s) :=
        if Ascii.eqb c0 "+" then (false, rest)
        else if Ascii.eqb c0 "-" then (true, rest)
        else (false, s) in
      (* Convert unsigned and check range. *)
      let '(un, err) := ParseUint s bitSize in
      match err with
      | Some (NumError _ _ ErrSyntax) => (0, Some (syntaxError "ParseInt" s0))
      | _ =>
          let cutoff := 2 ^ (bitSize - 1) in
          if negb neg && (cutoff <=? un)
          then (cutoff - 1, Some (rangeError "ParseInt" s0))
          else if neg && (cutoff <? un)
          then (- cutoff, Some (rangeError "ParseInt" s0))
          else (if neg then - un else un, None)
      end
  end.

(** [strconv.ParseBool]. *)
Definition ParseBool (str : string) : bool * option error :=
  if existsb (String.eqb str) ["1"; "t"; "T"; "TRUE"; "true"; "True"]%string
  then (true, None)
  else if existsb (String.eqb str) ["0"; "f"; "F"; "FALSE"; "false"; "False"]%string
  then (false, None)
  else (false, Some (syntaxError "ParseBool" str)).

End strconv.

(* ===================================================================== *)
(** * [float64], [math.Modf] and the conversion to [int64] *)
(* ===================================================================== *)

(** A [float64] is an IEEE 754 binary64 number. *)
Abbreviation float64 := spec_float.

Module math.

Open Scope Z_scope.

Definition prec : Z := 53.
Definition emax : Z := 1024.

Definition mul (x y : float64) : float64 := SFmul prec emax x y.
Definition sub (x y : float64) : float64 := SFsub prec emax x y.
Definition neg (x : float64) : float64 := SFopp x.
Definition ltb (x y : float64) : bool := SFltb x y.
Definition eqb (x y : float64) : bool := SFeqb x y.

(** The [float64] nearest to an integer (exact up to [2^53]). *)
Definition of_Z (z : Z) : float64 := binary_normalize prec emax z 0 false.

(** The number with the fraction bits of [f] cleared, for [f >= 1]:
    what [modf] obtains by masking the low bits of the representation. *)
Definition clear_fraction (f : float64) : float64 :=
  match f with
  | S754_finite s m e =>
      if 0 <=? e then f
      else binary_normalize prec emax
             (cond_Zopp s (Z.shiftl (Z.shiftr (Zpos m) (- e)) (- e))) e s
  | _ => f
  end.

(** [math.Modf] for an argument that is not negative. *)
Definition Modf_nonneg (f : float64) : float64 * float64 :=
  if ltb f (of_Z 1) then
    if eqb f (of_Z 0) then (f, f) else (S754_zero false, f)
  else
    let int := clear_fraction f in
    (int, sub f int).

(** [math.Modf]: the integer and the fractional part, both with the sign
    of [f]. *)
Definition Modf (f : float64) : float64 * float64 :=
  if ltb f (of_Z 0) then
    let '(int, frac) := Modf_nonneg (neg f) in (neg int, neg frac)
  else Modf_nonneg f.

(** The conversion [int64(f)]: the fraction is discarded; a value out of
    the range of [int64] (or a NaN) gives the smallest [int64], as the
    conversion instruction of amd64 does (Go leaves that case to the
    implementation). *)
Definition to_int64 (f : float64) : Z :=
  match f with
  | S754_zero _ => 0
  | S754_finite s m e =>
      let n := if 0 <=? e then Z.shiftl (Zpos m) e else Z.shiftr (Zpos m) (- e) in
      let z := cond_Zopp s n in
      if (- 2 ^ 63 <=? z) && (z <? 2 ^ 63) then z else - 2 ^ 63
  | _ => - 2 ^ 63
  end.

(** Wrap-around of a [w]-bit signed and unsigned integer. *)
Definition wrap_signed (w z : Z) : Z := (z + 2 ^ (w - 1)) mod 2 ^ w - 2 ^ (w - 1).
Definition wrap_unsigned (w z : Z) : Z := z mod 2 ^ w.

End math.

(* ===================================================================== *)
(** * [time.Time] and [time.Unix] *)
(* ===================================================================== *)

Module time.

Open Scope Z_scope.

Inductive Location : Set :=
| UTC
| Local
| FixedZone (offset : Z).      (* seconds east of UTC *)

(** An instant: seconds and nanoseconds since the Unix epoch, and the
    location it is shown in. *)
Record T : Set := mkT { sec : Z; nsec : Z; loc : Location }.

(** [time.Time{}]: January 1, year 1, 00:00:00 UTC. *)
Definition zero : T := mkT (- 62135596800) 0 UTC.

(** [time.Unix(sec, nsec)]: [nsec] outside [0, 1e9) is carried into the
    seconds, in [int64] arithmetic; the result is in the local zone. *)
Definition Unix (sec nsec : Z) : T :=
  let '(sec, nsec) :=
    if (nsec <? 0) || (1000000000 <=? nsec) then
      let n := Z.quot nsec 1000000000 in
      let sec := math.wrap_signed 64 (sec + n) in
      let nsec := nsec - n * 1000000000 in
      if nsec <? 0 then (math.wrap_signed 64 (sec - 1), nsec + 1000000000)
      else (sec, nsec)
    else (sec, nsec) in
  mkT sec nsec Local.

End time.

(* ===================================================================== *)
(** * Values and the heap *)
(* ===================================================================== *)

(** An address: a cell of the heap and the path of field indices from the
    value in the cell down to the part that is meant (a pointer can point
    to a field of a struct). *)
Definition addr : Type := nat * list nat.

Inductive value : Type :=
| VBool (b : bool)
| VInt (z : Z)                       (* the signed integers *)
| VUint (z : Z)                      (* the unsigned integers *)
| VFloat (f : float64)
| VComplex (re im : float64)
| VString (s : string)
| VPtr (p : option addr)             (* [None] is nil *)
| VStruct (fields : list value)
| VTime (t : time.T)
| VArray (elems : list value)
| VSlice (elems : option (list value))
| VMap (entries : option (list (value * value)))
| VChan (c : option nat)
| VFunc (f : option nat)
| VIface (x : option (reflect.type * value)).

(** The zero value of a type. *)
Fixpoint zero (t : reflect.type) : value :=
  match t with
  | reflect.TBasic b =>
      match b with
      | reflect.Tbool => VBool false
      | reflect.Tint | reflect.Tint8 | reflect.Tint16
      | reflect.Tint32 | reflect.Tint64 => VInt 0
      | reflect.Tuint | reflect.Tuint8 | reflect.Tuint16
      | reflect.Tuint32 | reflect.Tuint64 | reflect.Tuintptr => VUint 0
      | reflect.Tfloat32 | reflect.Tfloat64 => VFloat (S754_zero false)
      | reflect.Tcomplex64 | reflect.Tcomplex128 =>
          VComplex (S754_zero false) (S754_zero false)
      | reflect.Tstring => VString ""
      | reflect.TunsafePointer => VPtr None
      end
  | reflect.TPtr _ => VPtr None
  | reflect.TStruct _ fs => VStruct (map (fun f => zero (reflect.Typ f)) fs)
  | reflect.TTime => VTime time.zero
  | reflect.TArray n e => VArray (replicate n (zero e))
  | reflect.TSlice _ => VSlice None
  | reflect.TMap _ _ => VMap None
  | reflect.TChan _ => VChan None
  | reflect.TFunc => VFunc None
  | reflect.TInterface => VIface None
  end.

Abbreviation heap := (list value).

(** The part of [v] at the end of a path of field indices. *)
Fixpoint sub_load (v : value) (path : list nat) : option value :=
  match path with
  | [] => Some v
  | i :: p =>
      match v with
      | VStruct fs => match fs !! i with Some x => sub_load x p | None => None end
      | _ => None
      end
  end.

(** [v] with the part at the end of the path replaced by [x]. *)
Fixpoint sub_store (v : value) (path : list nat) (x : value) : option value :=
  match path with
  | [] => Some x
  | i :: p =>
      match v with
      | VStruct fs =>
          match fs !! i with
          | Some fi =>
              match sub_store fi p x with
              | Some fi' => Some (VStruct (<[i:=fi']> fs))
              | None => None
              end
          | None => None
          end
      | _ => None
      end
  end.

Definition load (h : heap) (a : addr) : option value :=
  match h !! a.1 with Some v => sub_load v a.2 | None => None end.

Definition store (h : heap) (a : addr) (x : value) : option heap :=
  match h !! a.1 with
  | Some v =>
      match sub_store v a.2 x with
      | Some v' => Some (<[a.1:=v']> h)
      | None => None
      end
  | None => None
  end.

(** ** Computations on the heap that may panic *)

Inductive outcome (A : Type) : Type :=
| Done (a : A) (h : heap)
| Panic (msg : string).
Arguments Done {A} _ _.
Arguments Panic {A} _.

Definition M (A : Type) : Type := heap -> outcome A.

Definition ret {A} (a : A) : M A := fun h => Done a h.

Definition bind {A B} (m : M A) (f : A -> M B) : M B :=
  fun h => match m h with
           | Done a h' => f a h'
           | Panic msg => Panic msg
           end.

Definition panic {A} (msg : string) : M A := fun _ => Panic msg.

Declare Scope go_scope.
Delimit Scope go_scope with go.
Notation "x <- m ;; k" := (bind m (fun x => k))
  (at level 100, m at next level, right associativity) : go_scope.
Notation "m ;;; k" := (bind m (fun _ => k))
  (at level 100, right associativity) : go_scope.
Open Scope go_scope.

(** Reading and writing a cell; an address outside the heap cannot arise
    from safe Go code and is made a panic. *)
Definition deref (a : addr) : M value :=
  fun h => match load h a with
           | Some x => Done x h
           | None => Panic "invalid address"
           end.

Definition assign (a : addr) (x : value) : M unit :=
  fun h => match store h a x with
           | Some h' => Done tt h'
           | None => Panic "invalid address"
           end.

(** A new cell, at the end of the heap. *)
Definition alloc (x : value) : M addr :=
  fun h => Done (length h, []) (h ++ [x]).

(* ===================================================================== *)
(** * [reflect.Value] *)
(* ===================================================================== *)

(** A [reflect.Value]: the zero Value, a value held by the handle itself
    (what [reflect.ValueOf] returns: it cannot be addressed or set), or the
    variable at an address (what [Elem] of a pointer and [Field] of an
    addressable struct return: it can be set).  Assignability of types and
    the read-only flag of values reached through unexported fields are not
    modelled: the program never sets such a value. *)
Inductive Value : Type :=
| Zero
| Direct (t : reflect.type) (x : value)
| Indirect (t : reflect.type) (a : addr).

(** An [interface{}]: nil, or a type and a value of it. *)
Definition iface : Type := option (reflect.type * value).

Definition reflect_ValueOf (i : iface) : Value :=
  match i with
  | None => Zero
  | Some (t, x) => Direct t x
  end.

Definition reflect_TypeOf (i : iface) : option reflect.type :=
  match i with
  | None => None
  | Some (t, _) => Some t
  end.

Definition Value_Kind (v : Value) : reflect.Kind :=
  match v with
  | Zero => reflect.Invalid
  | Direct t _ | Indirect t _ => reflect.Type_Kind t
  end.

Definition Value_Type (v : Value) : M reflect.type :=
  match v with
  | Zero => panic "reflect: call of reflect.Value.Type on zero Value"
  | Direct t _ | Indirect t _ => ret t
  end.

(** [Type.Elem], for the kinds that have an element type. *)
Definition Type_Elem (t : reflect.type) : M reflect.type :=
  match t with
  | reflect.TPtr e | reflect.TArray _ e | reflect.TSlice e
  | reflect.TMap _ e | reflect.TChan e => ret e
  | _ => panic "reflect: Elem of invalid type"
  end.

(** The value a handle stands for, now. *)
Definition content (v : Value) : M value :=
  match v with
  | Zero => panic "reflect: call on zero Value"
  | Direct _ x => ret x
  | Indirect _ a => deref a
  end.

Definition is_nil (x : value) : bool :=
  match x with
  | VPtr None | VSlice None | VMap None
  | VChan None | VFunc None | VIface None => true
  | _ => false
  end.

Definition Value_IsNil (v : Value) : M bool :=
  match Value_Kind v with
  | reflect.Chan | reflect.Func | reflect.Interface | reflect.Map
  | reflect.Ptr | reflect.Slice | reflect.UnsafePointer =>
      x <- content v ;; ret (is_nil x)
  | _ => panic "reflect: call of reflect.Value.IsNil on a Value that cannot be nil"
  end.

(** [Value.Elem]: the variable a pointer points to, the zero Value for a
    nil pointer. *)
Definition Value_Elem (v : Value) : M Value :=
  match v with
  | Zero => panic "reflect: call of reflect.Value.Elem on zero Value"
  | Direct t _ | Indirect t _ =>
      match t with
      | reflect.TPtr e =>
          x <- content v ;;
          match x with
          | VPtr None => ret Zero
          | VPtr (Some a) => ret (Indirect e a)
          | _ => panic "value is not of its type"
          end
      | reflect.TInterface =>
          x <- content v ;;
          match x with
          | VIface i => ret (reflect_ValueOf i)
          | _ => panic "value is not of its type"
          end
      | _ => panic "reflect: call of reflect.Value.Elem on a Value that is no pointer"
      end
  end.

(** [Value.Set]: only an addressable value can be set. *)
Definition Value_Set (v x : Value) : M unit :=
  match v with
  | Zero => panic "reflect: call of reflect.Value.Set on zero Value"
  | Direct _ _ => panic "reflect: reflect.Value.Set using unaddressable value"
  | Indirect _ a => c <- content x ;; assign a c
  end.

(** [reflect.New]: a pointer to a new zero value of the type. *)
Definition reflect_New (t : reflect.type) : M Value :=
  a <- alloc (zero t) ;; ret (Direct (reflect.TPtr t) (VPtr (Some a))).

Definition Value_Addr (v : Value) : M Value :=
  match v with
  | Indirect t a => ret (Direct (reflect.TPtr t) (VPtr (Some a)))
  | _ => panic "reflect.Value.Addr of unaddressable value"
  end.

Definition Value_NumField (v : Value) : M nat :=
  match v with
  | Zero => panic "reflect: call of reflect.Value.NumField on zero Value"
  | Direct t _ | Indirect t _ =>
      match reflect.Type_Kind t with
      | reflect.Struct => ret (length (reflect.Type_fields t))
      | _ => panic "reflect: call of reflect.Value.NumField on a Value that is no struct"
      end
  end.

Definition Value_Field (v : Value) (i : nat) : M Value :=
  match v with
  | Zero => panic "reflect: call of reflect.Value.Field on zero Value"
  | Direct t x =>
      match reflect.Type_fields t !! i, x with
      | Some f, VStruct xs =>
          match xs !! i with
          | Some xi => ret (Direct (reflect.Typ f) xi)
          | None => panic "value is not of its type"
          end
      | _, _ => panic "reflect: Field index out of range"
      end
  | Indirect t a =>
      match reflect.Type_fields t !! i with
      | Some f => ret (Indirect (reflect.Typ f) (a.1, a.2 ++ [i]))
      | None => panic "reflect: Field index out of range"
      end
  end.

Definition Value_Interface (v : Value) : M iface :=
  match v with
  | Zero => panic "reflect: call of reflect.Value.Interface on zero Value"
  | Direct t _ | Indirect t _ => x <- content v ;; ret (Some (t, x))
  end.

(** The setters: each needs an addressable value of the right kind, and
    stores the number converted to the type of the variable. *)
Definition mustBeAssignable (fn : string) (v : Value) : M addr :=
  match v with
  | Indirect _ a => ret a
  | _ => panic ("reflect: " ++ fn ++ " using unaddressable value")
  end.

Definition Value_SetString (v : Value) (x : string) : M unit :=
  a <- mustBeAssignable "reflect.Value.SetString" v ;;
  match Value_Kind v with
  | reflect.String => assign a (VString x)
  | _ => panic "reflect: call of reflect.Value.SetString on a Value that is no string"
  end.

Definition Value_SetBool (v : Value) (x : bool) : M unit :=
  a <- mustBeAssignable "reflect.Value.SetBool" v ;;
  match Value_Kind v with
  | reflect.Bool => assign a (VBool x)
  | _ => panic "reflect: call of reflect.Value.SetBool on a Value that is no bool"
  end.

Definition Value_SetInt (v : Value) (x : Z) : M unit :=
  a <- mustBeAssignable "reflect.Value.SetInt" v ;;
  match Value_Kind v with
  | reflect.Int => assign a (VInt (math.wrap_signed strconv.IntSize x))
  | reflect.Int8 => assign a (VInt (math.wrap_signed 8 x))
  | reflect.Int16 => assign a (VInt (math.wrap_signed 16 x))
  | reflect.Int32 => assign a (VInt (math.wrap_signed 32 x))
  | reflect.Int64 => assign a (VInt (math.wrap_signed 64 x))
  | _ => panic "reflect: call of reflect.Value.SetInt on a Value that is no int"
  end.

Definition Value_SetUint (v : Value) (x : Z) : M unit :=
  a <- mustBeAssignable "reflect.Value.SetUint" v ;;
  match Value_Kind v with
  | reflect.Uint => assign a (VUint (math.wrap_unsigned strconv.IntSize x))
  | reflect.Uintptr => assign a (VUint (math.wrap_unsigned strconv.IntSize x))
  | reflect.Uint8 => assign a (VUint (math.wrap_unsigned 8 x))
  | reflect.Uint16 => assign a (VUint (math.wrap_unsigned 16 x))
  | reflect.Uint32 => assign a (VUint (math.wrap_unsigned 32 x))
  | reflect.Uint64 => assign a (VUint (math.wrap_unsigned 64 x))
  | _ => panic "reflect: call of reflect.Value.SetUint on a Value that is no uint"
  end.

(** The conversion [float32(x)]: rounding to binary32. *)
Definition to_float32 (x : float64) : float64 :=
  match x with
  | S754_finite s m e => binary_normalize 24 128 (cond_Zopp s (Zpos m)) e s
  | _ => x
  end.

Definition Value_SetFloat (v : Value) (x : float64) : M unit :=
  a <- mustBeAssignable "reflect.Value.SetFloat" v ;;
  match Value_Kind v with
  | reflect.Float32 => assign a (VFloat (to_float32 x))
  | reflect.Float64 => assign a (VFloat x)
  | _ => panic "reflect: call of reflect.Value.SetFloat on a Value that is no float"
  end.

Definition Value_SetComplex (v : Value) (x : float64 * float64) : M unit :=
  a <- mustBeAssignable "reflect.Value.SetComplex" v ;;
  match Value_Kind v with
  | reflect.Complex64 => assign a (VComplex (to_float32 x.1) (to_float32 x.2))
  | reflect.Complex128 => assign a (VComplex x.1 x.2)
  | _ => panic "reflect: call of reflect.Value.SetComplex on a Value that is no complex"
  end.

(* ===================================================================== *)
(** * The parsers of the standard library taken as given *)
(* ===================================================================== *)

(** Each returns what the Go function returns: a result and an error
    ([None] for a nil error).  [Unmarshal s t x] is [json.Unmarshal] of [s]
    into a variable of type [t] that holds [x]: the value of the variable
    afterwards, and the error; [UnmarshalTime] is the same at type
    [time.Time]. *)
Record Lib : Type := mkLib {
  ParseFloat : string -> float64 * option error;             (* strconv.ParseFloat(s, 64) *)
  ParseComplex : string -> (float64 * float64) * option error; (* strconv.ParseComplex(s, 128) *)
  time_Parse : string -> time.T * option error;              (* time.Parse(time.RFC3339Nano, s) *)
  Unmarshal : string -> reflect.type -> value -> value * option error;
  UnmarshalTime : string -> time.T -> time.T * option error;
  Type_String : reflect.type -> string                       (* Type.String *)
}.

(* ===================================================================== *)
(** * [decode.go] *)
(* ===================================================================== *)

Section Decode.

Variable lib : Lib.

(** [json.Unmarshal([]byte(s), i)] for the pointer held by [i]. *)
Definition json_Unmarshal (s : string) (i : iface) : M (option error) :=
  match i with
  | Some (reflect.TPtr t, VPtr (Some a)) =>
      x <- deref a ;;
      let '(x', err) := Unmarshal lib s t x in
      assign a x' ;;;
      ret err
  | _ => ret (Some (JSONError "json: Unmarshal(non-pointer or nil)"))
  end.

(** [parseTime] parses a string as [time.Time]: the RFC3339 format, unix
    seconds, and a json marshalled [time.Time]. *)
Definition parseTime (s : string) : time.T * option error :=
  (* attempt to parse time as RFC3339 string *)
  let '(t, err) := time_Parse lib s in
  match err with
  | None => (t, None)
  | Some _ =>
      (* attempt to parse time as float number of unix seconds *)
      let '(f, err') := ParseFloat lib s in
      match err' with
      | None =>
          let '(sec, dec) := math.Modf f in
          (time.Unix (math.to_int64 sec)
                     (math.to_int64 (math.mul dec (math.of_Z 1000000000))),
           None)
      | Some _ =>
          (* attempt to parse time as json marshaled value *)
          let '(t', err'') := UnmarshalTime lib s t in
          match err'' with
          | None => (t', None)
          | Some _ => (time.zero, err)
          end
      end
  end.

(** [decodeValue(s, v)], by recursion on the type [vt] of [v] (each
    recursive call is on the element of a pointer). *)
Fixpoint decodeValue_at (s : string) (vt : reflect.type) (v : Value)
  {struct vt} : M (option error) :=
  e <- Value_Elem v ;;
  match Value_Kind e with
  | reflect.String =>
      Value_SetString e s ;;; ret None
  | reflect.Bool =>
      let '(b, err) := strconv.ParseBool s in
      match err with
      | Some _ => ret err
      | None => Value_SetBool e b ;;; ret None
      end
  | reflect.Int | reflect.Int8 | reflect.Int16 | reflect.Int32 | reflect.Int64 =>
      let '(i, err) := strconv.ParseInt s 64 in
      match err with
      | Some _ => ret err
      | None => Value_SetInt e i ;;; ret None
      end
  | reflect.Uint | reflect.Uint8 | reflect.Uint16 | reflect.Uint32
  | reflect.Uint64 | reflect.Uintptr =>
      let '(i, err) := strconv.ParseUint s 64 in
      match err with
      | Some _ => ret err
      | None => Value_SetUint e i ;;; ret None
      end
  | reflect.Float32 | reflect.Float64 =>
      let '(f, err) := ParseFloat lib s in
      match err with
      | Some _ => ret err
      | None => Value_SetFloat e f ;;; ret None
      end
  | reflect.Complex64 | reflect.Complex128 =>
      let '(f, err) := ParseComplex lib s in
      match err with
      | Some _ => ret err
      | None => Value_SetComplex e f ;;; ret None
      end
  | reflect.Map | reflect.Struct | reflect.Array | reflect.Slice =>
      i <- Value_Interface v ;;
      match i with
      | Some (reflect.TPtr reflect.TTime, _) =>       (* case *time.Time *)
          let '(t, err) := parseTime s in
          match err with
          | Some _ => ret err
          | None =>
              Value_Set e (reflect_ValueOf (Some (reflect.TTime, VTime t))) ;;;
              ret None
          end
      | _ => json_Unmarshal s i
      end
  | reflect.Ptr =>
      nil <- Value_IsNil v ;;
      (if nil
       then (t <- Value_Type v ;; te <- Type_Elem t ;;
             n <- reflect_New te ;; Value_Set v n)
       else ret tt) ;;;
      e' <- Value_Elem v ;;
      match vt with
      | reflect.TPtr et => decodeValue_at s et e'
      | _ => panic "reflect: call of reflect.Value.Elem on a Value that is no pointer"
      end
  | reflect.Chan | reflect.Func => ret None
  | k => ret (Some (Errorf ("unsupported field kind: " ++ reflect.Kind_String k)))
  end.

Definition decodeValue (s : string) (v : Value) : M (option error) :=
  match v with
  | Zero => panic "reflect: call of reflect.Value.Elem on zero Value"
  | Direct t _ | Indirect t _ => decodeValue_at s t v
  end.

Variable env : environ.

(** The loop [for t.Kind() == reflect.Ptr { ... }] of [Decode]. *)
Fixpoint deref_loop (t : reflect.type) (val : Value) : M (reflect.type * Value) :=
  match t with
  | reflect.TPtr te =>
      let t := te in                               (* t = t.Elem() *)
      nil <- Value_IsNil val ;;
      (if nil then (n <- reflect_New t ;; Value_Set val n) else ret tt) ;;;
      val <- Value_Elem val ;;
      deref_loop t val
  | _ => ret (t, val)
  end.

(** The loop over the fields, from field [i] on; [fs] are the fields
    [t.Field(i)], [t.Field(i+1)], ... still to visit. *)
Fixpoint fields_loop (newVal : Value) (fs : list reflect.StructField) (i : nat)
  : M (option error) :=
  match fs with
  | [] => ret None
  | fTyp :: rest =>
      let isUnexported := negb (String.eqb (reflect.PkgPath fTyp) "") in
      if isUnexported then fields_loop newVal rest (S i)
      else
        let fieldTags := getFieldTags fTyp in
        let '(s, tag) := probe env fieldTags "" "" in
        if (String.length s =? 0)%nat then fields_loop newVal rest (S i)
        else
          nv <- Value_Elem newVal ;;
          fVal <- Value_Field nv i ;;
          a <- Value_Addr fVal ;;
          err <- decodeValue s a ;;
          match err with
          | Some _ =>
              ret (Some (ofDecodeError (newDecodeError
                     ("unable to decode value in field '" ++ tag ++ "'") tag err)))
          | None => fields_loop newVal rest (S i)
          end
  end.

(** [Decode] decodes the environment variables into an output structure. *)
Definition Decode (v : iface) : M (option error) :=
  let val := reflect_ValueOf v in
  if negb (reflect.Kind_eqb (Value_Kind val) reflect.Ptr)
  then ret (Some (ofDecodeError (newDecodeError "must decode to pointer" "" None)))
  else
    match reflect_TypeOf v with
    | None => panic "invalid memory address or nil pointer dereference"
    | Some t =>
        r <- deref_loop t val ;;
        let '(t, val) := r in
        if negb (reflect.Kind_eqb (reflect.Type_Kind t) reflect.Struct)
        then ret (Some (ofDecodeError (newDecodeError
                    ("cannot decode into value of type: " ++ Type_String lib t) "" None)))
        else
          newVal <- reflect_New t ;;
          err <- fields_loop newVal (reflect.Type_fields t) 0 ;;
          match err with
          | Some _ => ret err
          | None =>
              nv <- Value_Elem newVal ;;
              Value_Set val nv ;;;
              ret None
          end
    end.

End Decode.

(* ===================================================================== *)
(** * A reference instance of the library parsers *)
(* ===================================================================== *)

(** The general statements below hold for every [Lib].  To run [Decode] on
    concrete inputs one instance is fixed here, which covers a fragment of
    each Go parser and reports a syntax error outside it:
    - [ParseFloat]: the decimal forms (sign, digits, fraction, decimal
      exponent), rounded to the nearest [float64], and the infinities and
      NaN; not the hexadecimal forms, nor underscores between digits;
    - [time.Parse]: the strict RFC 3339 form
      [YYYY-MM-DDTHH:MM:SS[.fraction](Z|+HH:MM|-HH:MM)];
    - [json.Unmarshal]: a quoted RFC 3339 text for a [time.Time], and the
      texts [null], [{}] and [[]] for the composite kinds. *)
Module RefLib.

Open Scope Z_scope.

Definition is_digit (c : ascii) : bool :=
  let n := Z.of_nat (nat_of_ascii c) in (48 <=? n) && (n <=? 57).

Definition digit_val (c : ascii) : Z := Z.of_nat (nat_of_ascii c) - 48.

(** The number that decimal digits stand for, read after [acc]; [None] if
    the string has another byte. *)
Fixpoint digits_from (s : string) (acc : Z) : option Z :=
  match s with
  | EmptyString => Some acc
  | String c r => if is_digit c then digits_from r (acc * 10 + digit_val c) else None
  end.

(** The number a string of one or more decimal digits stands for. *)
Definition number (s : string) : option Z :=
  match s with
  | EmptyString => None
  | _ => digits_from s 0
  end.

(** [s] cut at the first occurrence of the byte [c], if there is one. *)
Fixpoint cut (c : ascii) (s : string) : option (string * string) :=
  match s with
  | EmptyString => None
  | String x r =>
      if Ascii.eqb x c then Some (EmptyString, r)
      else match cut c r with
           | Some (a, b) => Some (String x a, b)
           | None => None
           end
  end.

(** The [float64] nearest to [m / 10^k] (ties to even): the quotient is
    taken with 64 bits and more, and a last bit that records a remainder. *)
Definition round_decimal (neg : bool) (m : Z) (k : Z) : float64 :=
  if m =? 0 then S754_zero neg
  else
    let sh := 64 + 4 * k in
    let '(q, r) := Z.div_eucl (Z.shiftl m sh) (10 ^ k) in
    let mz := 2 * q + (if r =? 0 then 0 else 1) in
    binary_normalize math.prec math.emax (cond_Zopp neg mz) (- sh - 1) neg.

(** The [float64] nearest to [m * 10^e], for [m] of [n] digits; beyond the
    exponents of [float64] the result is an infinity or a zero. *)
Definition decimal_float (neg : bool) (m : Z) (n : Z) (e : Z) : float64 :=
  if m =? 0 then S754_zero neg
  else if 400 <? e then S754_infinity neg
  else if e + n <? - 400 then S754_zero neg
  else if 0 <=? e
  then binary_normalize math.prec math.emax (cond_Zopp neg (m * 10 ^ e)) 0 neg
  else round_decimal neg m (- e).

Definition lower (c : ascii) : ascii :=
  let n := nat_of_ascii c in
  if ((65 <=? n) && (n <=? 90))%nat then ascii_of_nat (n + 32) else c.

Fixpoint lower_string (s : string) : string :=
  match s with
  | EmptyString => EmptyString
  | String c r => String (lower c) (lower_string r)
  end.

(** The sign at the head of [s], if any, and the rest. *)
Definition cut_sign (s : string) : option bool * string :=
  match s with
  | String c r =>
      if Ascii.eqb c "-" then (Some true, r)
      else if Ascii.eqb c "+" then (Some false, r) else (None, s)
  | EmptyString => (None, s)
  end.

Definition is_neg (sign : option bool) : bool :=
  match sign with Some true => true | _ => false end.

(** [s] cut at the first [e] or [E]: the mantissa, and the exponent if
    there is one. *)
Fixpoint cut_exponent (s : string) : string * option string :=
  match s with
  | EmptyString => (EmptyString, None)
  | String c r =>
      if Ascii.eqb (lower c) "e" then (EmptyString, Some r)
      else let '(a, b) := cut_exponent r in (String c a, b)
  end.

(** An exponent: an optional sign and digits. *)
Definition exponent (s : string) : option Z :=
  let '(sign, ds) := cut_sign s in
  match number ds with
  | Some z => Some (if is_neg sign then - z else z)
  | None => None
  end.

(** The infinities (with an optional sign) and NaN (without), in any
    case of the letters. *)
Definition special (s : string) : option float64 :=
  let '(sign, body) := cut_sign s in
  let l := lower_string body in
  if String.eqb l "inf" || String.eqb l "infinity"
  then Some (S754_infinity (is_neg sign))
  else if String.eqb (lower_string s) "nan" then Some S754_nan
  else None.

Definition ParseFloat (s : string) : float64 * option error :=
  let bad := (S754_zero false, Some (strconv.syntaxError "ParseFloat" s)) in
  match special s with
  | Some f => (f, None)
  | None =>
      let '(sign, body) := cut_sign s in
      let '(mant, ex) := cut_exponent body in
      let '(ip, fp) :=
        match cut "." mant with
        | Some (a, b) => (a, b)
        | None => (mant, EmptyString)
        end in
      let e := match ex with Some x => exponent x | None => Some 0 end in
      match number (ip ++ fp), digits_from ip 0, digits_from fp 0, e with
      | Some m, Some _, Some _, Some e =>
          let f := decimal_float (is_neg sign) m
                     (Z.of_nat (String.length (ip ++ fp)))
                     (e - Z.of_nat (String.length fp)) in
          match f with
          | S754_infinity _ => (f, Some (strconv.rangeError "ParseFloat" s))
          | _ => (f, None)
          end
      | _, _, _, _ => bad
      end
  end.

Definition ParseComplex (s : string) : (float64 * float64) * option error :=
  let '(f, err) := ParseFloat s in
  match err with
  | None => ((f, S754_zero false), None)
  | Some (NumError _ _ e) =>
      ((f, S754_zero false), Some (NumError "ParseComplex" s e))
  | Some _ => ((f, S754_zero false), err)
  end.

(** The days from 1970-01-01 to a date of the proleptic Gregorian
    calendar. *)
Definition days_from_civil (y m d : Z) : Z :=
  let y := if m <=? 2 then y - 1 else y in
  let era := y / 400 in
  let yoe := y - era * 400 in
  let doy := (153 * (if 2 <? m then m - 3 else m + 9) + 2) / 5 + d - 1 in
  let doe := yoe * 365 + yoe / 4 - yoe / 100 + doy in
  era * 146097 + doe - 719468.

Definition is_leap (y : Z) : bool :=
  ((y mod 4 =? 0) && negb (y mod 100 =? 0)) || (y mod 400 =? 0).

Definition days_in (y m : Z) : Z :=
  if m =? 2 then (if is_leap y then 29 else 28)
  else if (m =? 4) || (m =? 6) || (m =? 9) || (m =? 11) then 30 else 31.

(** A field of exactly [n] digits at the head of [s]. *)
Definition fixed (n : nat) (s : string) : option (Z * string) :=
  let h := substring 0 n s in
  if (String.length h =? n)%nat then
    match number h with
    | Some z => Some (z, substring n (String.length s - n) s)
    | None => None
    end
  else None.

(** The literal byte [c] at the head of [s]. *)
Definition lit (c : ascii) (s : string) : option string :=
  match s with
  | String x r => if Ascii.eqb x c then Some r else None
  | EmptyString => None
  end.

(** The digits at the head of [s], and what follows them. *)
Fixpoint span_digits (s : string) : string * string :=
  match s with
  | String c r =>
      if is_digit c then let '(a, b) := span_digits r in (String c a, b)
      else (EmptyString, s)
  | EmptyString => (EmptyString, EmptyString)
  end.

(** A fraction of a second in nanoseconds, the digits after the ninth
    dropped. *)
Definition nanos (digits : string) : Z :=
  let d9 := substring 0 9 digits in
  match number d9 with
  | Some z => z * 10 ^ (9 - Z.of_nat (String.length d9))
  | None => 0
  end.

Definition parse_zone (s : string) : option time.Location :=
  if String.eqb s "Z" then Some time.UTC
  else
    match s with
    | String sg r =>
        if Ascii.eqb sg "+" || Ascii.eqb sg "-" then
          match fixed 2 r with
          | Some (hh, r1) =>
              match lit ":" r1 with
              | Some r2 =>
                  match fixed 2 r2 with
                  | Some (mm, EmptyString) =>
                      if (hh <? 24) && (mm <? 60) then
                        let off := hh * 3600 + mm * 60 in
                        Some (time.FixedZone (if Ascii.eqb sg "-" then - off else off))
                      else None
                  | _ => None
                  end
              | None => None
              end
          | None => None
          end
        else None
    | EmptyString => None
    end.

Definition zone_offset (l : time.Location) : Z :=
  match l with
  | time.FixedZone off => off
  | _ => 0
  end.

Definition parseRFC3339 (s : string) : option time.T :=
  y ← fixed 4 s; r ← lit "-" y.2;
  mo ← fixed 2 r; r ← lit "-" mo.2;
  d ← fixed 2 r; r ← lit "T" d.2;
  h ← fixed 2 r; r ← lit ":" h.2;
  mi ← fixed 2 r; r ← lit ":" mi.2;
  sc ← fixed 2 r;
  fr ← match lit "." sc.2 with
       | Some r' =>
           let '(ds, rest) := span_digits r' in
           if (String.length ds =? 0)%nat then None else Some (nanos ds, rest)
       | None => Some (0, sc.2)
       end;
  l ← parse_zone fr.2;
  if (1 <=? mo.1) && (mo.1 <=? 12) && (1 <=? d.1) && (d.1 <=? days_in y.1 mo.1)
     && (h.1 <? 24) && (mi.1 <? 60) && (sc.1 <? 60)
  then Some (time.mkT (days_from_civil y.1 mo.1 d.1 * 86400
                       + h.1 * 3600 + mi.1 * 60 + sc.1 - zone_offset l)
                      fr.1 l)
  else None.

Definition time_Parse (s : string) : time.T * option error :=
  match parseRFC3339 s with
  | Some t => (t, None)
  | None => (time.zero, Some (ParseError s "cannot parse as RFC3339"))
  end.

(** The byte of the double quote. *)
Definition dquote : ascii := ascii_of_nat 34.

(** [Time.UnmarshalJSON]: [null] is a no-op, a JSON string is parsed as
    RFC 3339. *)
Definition UnmarshalTime (s : string) (t : time.T) : time.T * option error :=
  if String.eqb s "null" then (t, None)
  else
    match s with
    | String q r =>
        let n := String.length r in
        if Ascii.eqb q dquote && String.eqb (substring (n - 1) 1 r) (String dquote EmptyString)
        then match parseRFC3339 (substring 0 (n - 1) r) with
             | Some t' => (t', None)
             | None => (t, Some (ParseError s "cannot parse as RFC3339"))
             end
        else (t, Some (JSONError "Time.UnmarshalJSON: input is not a JSON string"))
    | EmptyString => (t, Some (JSONError "unexpected end of JSON input"))
    end.

Definition Unmarshal (s : string) (t : reflect.type) (x : value)
  : value * option error :=
  if String.eqb s "null" then
    match t with
    | reflect.TMap _ _ => (VMap None, None)
    | reflect.TSlice _ => (VSlice None, None)
    | _ => (x, None)
    end
  else
    match t with
    | reflect.TMap _ _ =>
        if String.eqb s "{}"
        then (match x with VMap (Some _) => x | _ => VMap (Some []) end, None)
        else (x, Some (JSONError "json: text outside the fragment of this instance"))
    | reflect.TStruct _ _ =>
        if String.eqb s "{}" then (x, None)
        else (x, Some (JSONError "json: text outside the fragment of this instance"))
    | reflect.TSlice _ =>
        if String.eqb s "[]" then (VSlice (Some []), None)
        else (x, Some (JSONError "json: text outside the fragment of this instance"))
    | reflect.TArray _ e =>
        if String.eqb s "[]" then (zero t, None)
        else (x, Some (JSONError "json: text outside the fragment of this instance"))
    | _ => (x, Some (JSONError "json: text outside the fragment of this instance"))
    end.

Fixpoint Type_String (t : reflect.type) : string :=
  match t with
  | reflect.TBasic b => reflect.Kind_String (reflect.basic_Kind b)
  | reflect.TPtr e => "*" ++ Type_String e
  | reflect.TStruct name _ => name
  | reflect.TTime => "time.Time"
  | reflect.TArray n e => "[" ++ pretty n ++ "]" ++ Type_String e
  | reflect.TSlice e => "[]" ++ Type_String e
  | reflect.TMap k e => "map[" ++ Type_String k ++ "]" ++ Type_String e
  | reflect.TChan e => "chan " ++ Type_String e
  | reflect.TFunc => "func()"
  | reflect.TInterface => "interface {}"
  end.

Definition lib : Lib :=
  mkLib ParseFloat ParseComplex time_Parse Unmarshal UnmarshalTime Type_String.

End RefLib.

(* ===================================================================== *)
(** * Definitions used to state the properties *)
(* ===================================================================== *)

(** ** Key resolution in the words of the specification *)

(** The keys of the decode-tag (comma-separated, empty entries dropped) if
    there is one; otherwise the first comma-delimited segment of the
    serialization tag if it is not empty; otherwise the declared name. *)
Definition first_segment (tag : string) : string :=
  hd EmptyString (strings.Split tag ",").

Definition decode_tag_keys {T} (f : reflect.StructField_ T) : list string :=
  filter (fun s => s <> EmptyString)
    (strings.Split (reflect.Tag_Get (reflect.Tag f) "mpe") ",").

Definition resolve_keys_spec {T} (f : reflect.StructField_ T) : list string :=
  match decode_tag_keys f with
  | _ :: _ => decode_tag_keys f
  | [] =>
      let seg := first_segment (reflect.Tag_Get (reflect.Tag f) "json") in
      if decide (seg = EmptyString) then [reflect.Name f] else [seg]
  end.

(** ** Fields that [Decode] passes by *)

(** The value that the probe of the environment finds for a field, and
    whether [Decode] passes the field by: it is not exported, or the value
    found is empty (no key exists, or the first that exists is empty). *)
Definition looked_up (env : environ) (f : reflect.StructField) : string :=
  (probe env (getFieldTags f) EmptyString EmptyString).1.

Definition skipped (env : environ) (f : reflect.StructField) : bool :=
  negb (String.eqb (reflect.PkgPath f) EmptyString)
  || (String.length (looked_up env f) =? 0)%nat.

(** [k'] is not set. *)
Definition unset_in (env : environ) (k' : string) : bool :=
  match env !! k' with None => true | Some _ => false end.

(** No candidate listed after the first occurrence of [k] in [tags] is
    set: an empty value of [k] hides nothing. *)
Fixpoint later_unset (env : environ) (k : string) (tags : list string) : bool :=
  match tags with
  | [] => true
  | k' :: rest =>
      if String.eqb k' k
      then forallb (fun k'' => String.eqb k'' k || unset_in env k'') rest
      else later_unset env k rest
  end.

(** Two environments give a field the same treatment: the probe has the
    same result, or finds an empty value in both. *)
Definition agree (env1 env2 : environ) (tags : list string) (s tag : string)
  : Prop :=
  probe env1 tags s tag = probe env2 tags s tag \/
  ((probe env1 tags s tag).1 = EmptyString /\
   (probe env2 tags s tag).1 = EmptyString).

(** ** The walk down the references *)

(** The type at the end of a chain of pointers. *)
Fixpoint Type_deref (t : reflect.type) : reflect.type :=
  match t with
  | reflect.TPtr e => Type_deref e
  | _ => t
  end.

(** The fields of the record that an argument of [Decode] leads to. *)
Definition iface_fields (v : iface) : list reflect.StructField :=
  match v with
  | Some (t, _) => reflect.Type_fields (Type_deref t)
  | None => []
  end.

Definition has_type (val : Value) (t : reflect.type) : Prop :=
  match val with
  | Zero => False
  | Direct t' _ | Indirect t' _ => t' = t
  end.

(** Every reference on the way from [val] (of type [t]) down to the record
    is set. *)
Fixpoint chain_set (h : heap) (t : reflect.type) (val : Value) : Prop :=
  match t with
  | reflect.TPtr te =>
      exists a, content val h = Done (VPtr (Some a)) h /\
                chain_set h te (Indirect te a)
  | _ => True
  end.

Definition references_set (h : heap) (v : iface) : Prop :=
  match v with
  | Some (t, x) => chain_set h t (Direct t x)
  | None => True
  end.

(** One turn of the loop over the references. *)
Definition deref_turn (te : reflect.type) (val : Value) : M Value :=
  nil <- Value_IsNil val ;;
  (if nil then (n <- reflect_New te ;; Value_Set val n) else ret tt) ;;;
  Value_Elem val.

(** ** Kinds *)

Definition is_chan_or_func (k : reflect.Kind) : bool :=
  match k with reflect.Chan | reflect.Func => true | _ => false end.

(** The kinds that the converter has a case for. *)
Definition recognized (k : reflect.Kind) : bool :=
  match k with
  | reflect.String | reflect.Bool
  | reflect.Int | reflect.Int8 | reflect.Int16 | reflect.Int32 | reflect.Int64
  | reflect.Uint | reflect.Uint8 | reflect.Uint16 | reflect.Uint32
  | reflect.Uint64 | reflect.Uintptr
  | reflect.Float32 | reflect.Float64 | reflect.Complex64 | reflect.Complex128
  | reflect.Map | reflect.Struct | reflect.Array | reflect.Slice
  | reflect.Ptr | reflect.Chan | reflect.Func => true
  | _ => false
  end.

(** ** Base-10 numerals *)

(** The string of the decimal digits [ds] (each below ten). *)
Definition digits_string (ds : list nat) : string :=
  fold_right (fun d s => String (ascii_of_nat (48 + d)) s) EmptyString ds.

(** The number that the digits stand for, after the digits already read
    gave [acc]. *)
Definition decimal_value (ds : list nat) (acc : Z) : Z :=
  fold_left (fun a d => (a * 10 + Z.of_nat d)%Z) ds acc.

(** An optional sign ([Some true] is [-], [Some false] is [+]) and digits. *)
Definition sign_string (sign : option bool) : string :=
  match sign with
  | None => EmptyString
  | Some false => "+"
  | Some true => "-"
  end.

Definition numeral (sign : option bool) (ds : list nat) : string :=
  sign_string sign ++ digits_string ds.

Definition numeral_value (sign : option bool) (ds : list nat) : Z :=
  match sign with
  | Some true => (- decimal_value ds 0)%Z
  | _ => decimal_value ds 0
  end.

(** The width in bits of the integer types. *)
Definition signed_width (b : reflect.basic) : option Z :=
  match b with
  | reflect.Tint => Some strconv.IntSize
  | reflect.Tint8 => Some 8%Z
  | reflect.Tint16 => Some 16%Z
  | reflect.Tint32 => Some 32%Z
  | reflect.Tint64 => Some 64%Z
  | _ => None
  end.

Definition unsigned_width (b : reflect.basic) : option Z :=
  match b with
  | reflect.Tuint | reflect.Tuintptr => Some strconv.IntSize
  | reflect.Tuint8 => Some 8%Z
  | reflect.Tuint16 => Some 16%Z
  | reflect.Tuint32 => Some 32%Z
  | reflect.Tuint64 => Some 64%Z
  | _ => None
  end.

(** ** Inputs of the examples *)

Module Examples.

(** [struct { Value string `mpe:"A" json:"B"` }] *)
Definition TaggedTwice : reflect.type :=
  reflect.TStruct "TaggedTwice"
    [reflect.mkField "Value" "" [("mpe", "A"); ("json", "B")]
       (reflect.TBasic reflect.Tstring)].

(** [struct { Value string `mpe:"FIRST,SECOND"` }] *)
Definition TwoKeys : reflect.type :=
  reflect.TStruct "TwoKeys"
    [reflect.mkField "Value" "" [("mpe", "FIRST,SECOND")]
       (reflect.TBasic reflect.Tstring)].

(** [struct { Port int8 `mpe:"PORT"`; Name string `mpe:"NAME"`; hidden int }] *)
Definition Config : reflect.type :=
  reflect.TStruct "Config"
    [reflect.mkField "Port" "" [("mpe", "PORT")] (reflect.TBasic reflect.Tint8);
     reflect.mkField "Name" "" [("mpe", "NAME")] (reflect.TBasic reflect.Tstring);
     reflect.mkField "hidden" "main" [] (reflect.TBasic reflect.Tint)].

(** [struct { C chan int `mpe:"C"`; I interface{} `mpe:"I"` }] *)
Definition Handles : reflect.type :=
  reflect.TStruct "Handles"
    [reflect.mkField "C" "" [("mpe", "C")] (reflect.TChan (reflect.TBasic reflect.Tint));
     reflect.mkField "I" "" [("mpe", "I")] reflect.TInterface].

(** A pointer to the variable in cell [l]. *)
Definition ptr_to (t : reflect.type) (l : nat) : iface :=
  Some (reflect.TPtr t, VPtr (Some (l, []))).

(** A [Config] that holds values before the call. *)
Definition config_heap : heap := [VStruct [VInt 5; VString "old"; VInt 7]].

Definition env_AB : environ := <["A" := "1"]> (<["B" := "2"]> ∅).
Definition env_second : environ := <["SECOND" := "x"]> ∅.
Definition env_bad_port : environ := <["PORT" := "abc"]> (<["NAME" := "db"]> ∅).
Definition env_name : environ := <["NAME" := "db"]> ∅.

Definition rfc3339_text : string := "2023-01-15T10:00:00Z".
Definition unix_text : string := "1673776800".

End Examples.

(* ===================================================================== *)
(** * [DecodeError.Error], and [Decode] read as a function of the fields *)
(* ===================================================================== *)

(** ** The method [Error] of [DecodeError] *)

(** [fmt.Sprintf("%v", err)] of an error is the text of its method
    [Error]; for the errors of other packages that text is given by
    [text]. *)
Fixpoint error_Error (text : error -> string) (e : error) : string :=
  match e with
  | ofDecodeError d =>
      match d with
      | mkDecodeError description _ None => description
      | mkDecodeError description _ (Some err) =>
          description ++ ": err " ++ error_Error text err
      end
  | _ => text e
  end.

(** [func (d DecodeError) Error() string]. *)
Definition DecodeError_Error (text : error -> string) (d : DecodeError) : string :=
  match Err d with
  | None => Description d
  | Some err => Description d ++ ": err " ++ error_Error text err
  end.

(** ** The result of the converter on a new field *)

(** What [decodeValue] leaves in a field of type [ft] that holds its zero
    value when it is given [s], and the error it returns; read off the
    cases of [decodeValue]. *)
Definition converted (lib : Lib) (ft : reflect.type) (s : string)
  : value * option error :=
  let keep (err : option error) := (zero ft, err) in
  let unsupported (k : reflect.Kind) :=
    keep (Some (Errorf ("unsupported field kind: " ++ reflect.Kind_String k))) in
  let int (w : Z) :=
    let '(i, err) := strconv.ParseInt s 64 in
    match err with
    | Some _ => keep err
    | None => (VInt (math.wrap_signed w i), None)
    end in
  let uint (w : Z) :=
    let '(i, err) := strconv.ParseUint s 64 in
    match err with
    | Some _ => keep err
    | None => (VUint (math.wrap_unsigned w i), None)
    end in
  match ft with
  | reflect.TBasic b =>
      match b with
      | reflect.Tstring => (VString s, None)
      | reflect.Tbool =>
          let '(x, err) := strconv.ParseBool s in
          match err with
          | Some _ => keep err
          | None => (VBool x, None)
          end
      | reflect.Tint => int strconv.IntSize
      | reflect.Tint8 => int 8%Z
      | reflect.Tint16 => int 16%Z
      | reflect.Tint32 => int 32%Z
      | reflect.Tint64 => int 64%Z
      | reflect.Tuint | reflect.Tuintptr => uint strconv.IntSize
      | reflect.Tuint8 => uint 8%Z
      | reflect.Tuint16 => uint 16%Z
      | reflect.Tuint32 => uint 32%Z
      | reflect.Tuint64 => uint 64%Z
      | reflect.Tfloat32 =>
          let '(f, err) := ParseFloat lib s in
          match err with
          | Some _ => keep err
          | None => (VFloat (to_float32 f), None)
          end
      | reflect.Tfloat64 =>
          let '(f, err) := ParseFloat lib s in
          match err with
          | Some _ => keep err
          | None => (VFloat f, None)
          end
      | reflect.Tcomplex64 =>
          let '(c, err) := ParseComplex lib s in
          match err with
          | Some _ => keep err
          | None => (VComplex (to_float32 c.1) (to_float32 c.2), None)
          end
      | reflect.Tcomplex128 =>
          let '(c, err) := ParseComplex lib s in
          match err with
          | Some _ => keep err
          | None => (VComplex c.1 c.2, None)
          end
      | reflect.TunsafePointer => unsupported reflect.UnsafePointer
      end
  | reflect.TPtr _ => unsupported reflect.Invalid
  | reflect.TTime =>
      let '(t, err) := parseTime lib s in
      match err with
      | Some _ => keep err
      | None => (VTime t, None)
      end
  | reflect.TStruct _ _ | reflect.TArray _ _ | reflect.TSlice _
  | reflect.TMap _ _ => Unmarshal lib s ft (zero ft)
  | reflect.TChan _ | reflect.TFunc => keep None
  | reflect.TInterface => unsupported reflect.Interface
  end.

(** ** The record that the loop over the fields builds *)

(** The error [Decode] returns for a field whose conversion failed with
    [err]. *)
Definition field_error (env : environ) (f : reflect.StructField)
    (err : option error) : error :=
  let tag := (probe env (getFieldTags f) EmptyString EmptyString).2 in
  ofDecodeError (newDecodeError
    ("unable to decode value in field '" ++ tag ++ "'") tag err).

(** The fields [fs] (from index [i] on) taken in order into the record
    [xs]: a field passed by is left alone, another receives its converted
    value, and the first failure ends the loop. *)
Fixpoint build (lib : Lib) (env : environ) (fs : list reflect.StructField)
    (i : nat) (xs : list value) : list value * option error :=
  match fs with
  | [] => (xs, None)
  | f :: rest =>
      if skipped env f then build lib env rest (S i) xs
      else
        let '(x, err) := converted lib (reflect.Typ f) (looked_up env f) in
        match err with
        | Some _ => (<[i:=x]> xs, Some (field_error env f err))
        | None => build lib env rest (S i) (<[i:=x]> xs)
        end
  end.

(** The record built for a struct type, from its zero value. *)
Definition built (lib : Lib) (env : environ) (fs : list reflect.StructField)
  : list value * option error :=
  build lib env fs 0 (map (fun f => zero (reflect.Typ f)) fs).

(** The first field in order that is not passed by and whose conversion
    fails, if there is one. *)
Fixpoint first_failure (lib : Lib) (env : environ)
    (fs : list reflect.StructField) : option reflect.StructField :=
  match fs with
  | [] => None
  | f :: rest =>
      if skipped env f then first_failure lib env rest
      else
        match (converted lib (reflect.Typ f) (looked_up env f)).2 with
        | Some _ => Some f
        | None => first_failure lib env rest
        end
  end.

(** ** The text of a tag that lists keys *)

(** The keys [keys] written one after the other with a comma between
    them, as in [mpe:"A,B"]. *)
Fixpoint comma_join (keys : list string) : string :=
  match keys with
  | [] => EmptyString
  | [k] => k
  | k :: rest => k ++ "," ++ comma_join rest
  end.

(** [s] holds no comma. *)
Fixpoint comma_free (s : string) : bool :=
  match s with
  | EmptyString => true
  | String c r => negb (Ascii.eqb c ",") && comma_free r
  end.

(** ** Further inputs of the examples *)

Module MoreExamples.

(** [struct { Name string `mpe:"NAME"`; Limit *int `mpe:"LIMIT"` }] *)
Definition WithPointer : reflect.type :=
  reflect.TStruct "WithPointer"
    [reflect.mkField "Name" "" [("mpe", "NAME")] (reflect.TBasic reflect.Tstring);
     reflect.mkField "Limit" "" [("mpe", "LIMIT")]
       (reflect.TPtr (reflect.TBasic reflect.Tint))].

Definition with_pointer_heap : heap := [VStruct [VString "old"; VPtr None]].

Definition env_limit : environ := <["NAME" := "db"]> (<["LIMIT" := "5"]> ∅).

(** The fields of [Examples.Config]. *)
Definition config_fields : list reflect.StructField :=
  reflect.Type_fields Examples.Config.

Definition env_good : environ := <["PORT" := "80"]> (<["NAME" := "db"]> ∅).

(** A [Config] that already holds what [env_good] gives, twice. *)
Definition decoded_heap : heap :=
  [VStruct [VInt 80; VString "db"; VInt 0];
   VStruct [VInt 80; VString "db"; VInt 0]].

(** A [Config] between two other variables. *)
Definition crowded_heap : heap :=
  [VString "other"; VStruct [VInt 5; VString "old"; VInt 7]; VInt 9].

(** A variable of type [*Config] that is nil. *)
Definition nil_pointer_heap : heap := [VPtr None].

End MoreExamples.

(* ===================================================================== *)
(** * Key resolution: lemmas *)
(* ===================================================================== *)

Section KeyResolution.

Lemma length_pos_nonempty (s : string) :
  (0 <? String.length s)%nat = bool_decide (s <> EmptyString).
Proof. destruct s; reflexivity. Qed.

Lemma nonempty_pieces_filter (l : list string) :
  nonempty_pieces l = filter (fun s => s <> EmptyString) l.
Proof.
  induction l as [|s l IH]; [reflexivity|].
  cbn [nonempty_pieces]. rewrite length_pos_nonempty, filter_cons.
  destruct (decide (s <> EmptyString)) as [Hs|Hs].
  - rewrite bool_decide_eq_true_2 by exact Hs. by rewrite IH.
  - rewrite bool_decide_eq_false_2 by exact Hs. exact IH.
Qed.

Lemma Split_not_nil (s : string) (sep : ascii) : strings.Split s sep <> [].
Proof.
  destruct s as [|c r]; [discriminate|]. cbn [strings.Split].
  destruct (Ascii.eqb c sep); [discriminate|].
  destruct (strings.Split r sep); discriminate.
Qed.

Lemma Split_empty_pieces (sep : ascii) :
  filter (fun s => s <> EmptyString) (strings.Split EmptyString sep) = [].
Proof. reflexivity. Qed.

Lemma getFieldTags_spec {T} (f : reflect.StructField_ T) :
  getFieldTags f = resolve_keys_spec f.
Proof.
  assert (Hjson : forall tag : string,
    (if (0 <? String.length tag)%nat
     then match strings.Split tag "," with
          | j0 :: _ => if (0 <? String.length j0)%nat then [] ++ [j0] else []
          | [] => []
          end
     else []) =
    (if decide (first_segment tag = EmptyString) then [] else [first_segment tag])).
  { intros tag. unfold first_segment. destruct tag as [|c j]; [reflexivity|].
    pose proof (Split_not_nil (String c j) ",") as Hne.
    destruct (strings.Split (String c j) ",") as [|j0 js]; [congruence|].
    destruct j0; reflexivity. }
  unfold getFieldTags, resolve_keys_spec, decode_tag_keys, mapEnvTagName.
  cbv zeta.
  destruct (reflect.Tag_Get (reflect.Tag f) "mpe") as [|c m] eqn:Hm.
  - rewrite Split_empty_pieces.
    change (0 <? String.length EmptyString)%nat with false. cbv iota.
    change (0 <? length (@nil string))%nat with false. cbv iota.
    rewrite Hjson.
    destruct (decide (first_segment _ = EmptyString)); reflexivity.
  - replace (0 <? String.length (String c m))%nat with true by reflexivity.
    rewrite app_nil_l, nonempty_pieces_filter.
    destruct (filter _ (strings.Split (String c m) ",")) as [|k ks] eqn:Hk.
    + change (0 <? length (@nil string))%nat with false. cbv iota.
      rewrite Hjson.
      destruct (decide (first_segment _ = EmptyString)); reflexivity.
    + reflexivity.
Qed.

Lemma probe_found (env : environ) (tg v : string) (rest : list string)
    (s tag : string) :
  env !! tg = Some v -> probe env (tg :: rest) s tag = (v, tg).
Proof. intros H. cbn [probe]. unfold LookupEnv. by rewrite H. Qed.

Lemma probe_skip (env : environ) (tg : string) (rest : list string)
    (s tag : string) :
  env !! tg = None -> probe env (tg :: rest) s tag = probe env rest EmptyString tg.
Proof. intros H. cbn [probe]. unfold LookupEnv. by rewrite H. Qed.

(** The probe stops at the first key that exists. *)
Lemma probe_first_present (env : environ) (pre : list string) (k v : string)
    (post : list string) (s tag : string) :
  Forall (fun k' => env !! k' = None) pre ->
  env !! k = Some v ->
  probe env (pre ++ k :: post) s tag = (v, k).
Proof.
  intros Hpre Hk. revert s tag.
  induction Hpre as [|k' pre Hk' _ IH]; intros s tag.
  - by apply probe_found.
  - rewrite <- app_comm_cons, probe_skip by exact Hk'. apply IH.
Qed.

(** When no key exists, the value is empty. *)
Lemma probe_none_present (env : environ) (tags : list string) (tag : string) :
  Forall (fun k' => env !! k' = None) tags ->
  (probe env tags EmptyString tag).1 = EmptyString.
Proof.
  intros H. revert tag. induction H as [|k tags Hk _ IH]; intros tag.
  - reflexivity.
  - rewrite probe_skip by exact Hk. apply IH.
Qed.

End KeyResolution.

(* ===================================================================== *)
(** * The integer parsers on base-10 numerals *)
(* ===================================================================== *)

Section Numerals.

Local Open Scope Z_scope.

Lemma digit_of_digit (d : nat) :
  (d < 10)%nat -> strconv.digit_of (ascii_of_nat (48 + d)) = Some (Z.of_nat d).
Proof.
  intros H.
  do 10 (destruct d as [|d]; [reflexivity|]). lia.
Qed.

Lemma decimal_value_ge (ds : list nat) (acc : Z) :
  0 <= acc -> acc <= decimal_value ds acc.
Proof.
  revert acc. induction ds as [|d ds IH]; intros acc Hacc; cbn; [lia|].
  etransitivity; [|apply IH]; lia.
Qed.

Lemma ParseUint_loop_digits (fn s0 : string) (ds : list nat) (n : Z) :
  Forall (fun d => (d < 10)%nat) ds ->
  0 <= n < 2 ^ 64 ->
  strconv.ParseUint_loop fn s0 64 (digits_string ds) n
  = if decimal_value ds n <? 2 ^ 64
    then (decimal_value ds n, None)
    else (2 ^ 64 - 1, Some (strconv.rangeError fn s0)).
Proof.
  intros Hds. revert n. induction Hds as [|d ds Hd _ IH]; intros n Hn.
  - cbn. destruct (Z.ltb_spec n (2 ^ 64)); [reflexivity|lia].
  - cbn [digits_string fold_right strconv.ParseUint_loop].
    rewrite digit_of_digit by exact Hd.
    change (decimal_value (d :: ds) n) with (decimal_value ds (n * 10 + Z.of_nat d)).
    destruct (Z.leb_spec 10 (Z.of_nat d)) as [?|_]; [lia|].
    unfold strconv.maxUint64.
    change (2 ^ 64) with 18446744073709551616 in *.
    change ((18446744073709551616 - 1) / 10 + 1) with 1844674407370955162.
    pose proof (decimal_value_ge ds (n * 10 + Z.of_nat d)) as Hge.
    destruct (Z.leb_spec 1844674407370955162 n) as [Hc|Hc].
    + destruct (Z.ltb_spec (decimal_value ds (n * 10 + Z.of_nat d)) 18446744073709551616);
        [lia|reflexivity].
    + destruct (Z.ltb_spec (n * 10 + Z.of_nat d) 18446744073709551616) as [Hs|Hs].
      * rewrite Z.mod_small by lia.
        destruct (Z.ltb_spec (n * 10 + Z.of_nat d) (n * 10)) as [?|_]; [lia|].
        destruct (Z.ltb_spec (18446744073709551616 - 1) (n * 10 + Z.of_nat d)) as [?|_]; [lia|].
        cbn [orb]. apply IH. lia.
      * assert (Hm : (n * 10 + Z.of_nat d) mod 18446744073709551616
                     = n * 10 + Z.of_nat d - 18446744073709551616).
        { symmetry. apply Z.mod_unique with 1; lia. }
        rewrite Hm.
        destruct (Z.ltb_spec (n * 10 + Z.of_nat d - 18446744073709551616) (n * 10)) as [_|?]; [|lia].
        cbn [orb].
        destruct (Z.ltb_spec (decimal_value ds (n * 10 + Z.of_nat d)) 18446744073709551616);
          [lia|reflexivity].
Qed.

Lemma digits_string_nonempty (ds : list nat) :
  ds <> [] -> exists c r, digits_string ds = String c r.
Proof. destruct ds as [|d ds]; [congruence|]. intros _. cbn. eauto. Qed.

(** [ParseUint] on a string of digits. *)
Lemma ParseUint_digits (ds : list nat) :
  Forall (fun d => (d < 10)%nat) ds -> ds <> [] ->
  strconv.ParseUint (digits_string ds) 64
  = if decimal_value ds 0 <? 2 ^ 64
    then (decimal_value ds 0, None)
    else (2 ^ 64 - 1, Some (strconv.rangeError "ParseUint" (digits_string ds))).
Proof.
  intros Hds Hne. destruct (digits_string_nonempty ds Hne) as (c & r & Hs).
  unfold strconv.ParseUint. rewrite Hs, <- Hs.
  apply ParseUint_loop_digits; [exact Hds|]. split; [lia|reflexivity].
Qed.

Lemma digit_not_sign (d : nat) (s : string) :
  (d < 10)%nat ->
  Ascii.eqb (ascii_of_nat (48 + d)) "+" = false /\
  Ascii.eqb (ascii_of_nat (48 + d)) "-" = false.
Proof.
  intros H. do 10 (destruct d as [|d]; [split; reflexivity|]). lia.
Qed.

Lemma ParseInt_numeral (sign : option bool) (ds : list nat) :
  Forall (fun d => (d < 10)%nat) ds -> ds <> [] ->
  let s := numeral sign ds in
  let z := numeral_value sign ds in
  strconv.ParseInt s 64
  = if (- 2 ^ 63 <=? z) && (z <? 2 ^ 63) then (z, None)
    else (if 0 <=? z then 2 ^ 63 - 1 else - 2 ^ 63,
          Some (strconv.rangeError "ParseInt" s)).
Proof.
  intros Hds Hne s z.
  assert (Hsplit : exists c0 rest,
    s = String c0 rest /\
    (if Ascii.eqb c0 "+" then (false, rest)
     else if Ascii.eqb c0 "-" then (true, rest) else (false, String c0 rest))
    = (match sign with Some true => true | _ => false end, digits_string ds)).
  { subst s. unfold numeral. destruct sign as [[|]|].
    - do 2 eexists. split; reflexivity.
    - do 2 eexists. split; reflexivity.
    - destruct ds as [|d ds]; [congruence|].
      apply Forall_cons in Hds as [Hd _].
      do 2 eexists. split; [reflexivity|].
      destruct (digit_not_sign d EmptyString Hd) as [-> ->]. reflexivity. }
  destruct Hsplit as (c0 & rest & Hs & Hsign).
  unfold strconv.ParseInt. rewrite Hs. cbv zeta. rewrite Hsign, <- Hs.
  rewrite ParseUint_digits by assumption.
  pose proof (decimal_value_ge ds 0 ltac:(lia)) as Hge.
  subst z. unfold numeral_value, strconv.rangeError.
  change (2 ^ (64 - 1)) with 9223372036854775808.
  change (2 ^ 63) with 9223372036854775808.
  change (2 ^ 64) with 18446744073709551616.
  set (n := decimal_value ds 0) in *.
  destruct (Z.ltb_spec n 18446744073709551616) as [Hlt|Hlt].
  - destruct sign as [[|]|]; cbn [negb andb];
      repeat match goal with
             | |- context [Z.leb ?a ?b] => destruct (Z.leb_spec a b)
             | |- context [Z.ltb ?a ?b] => destruct (Z.ltb_spec a b)
             end; cbn [negb andb]; try reflexivity; try lia.
  - change (18446744073709551616 - 1) with 18446744073709551615.
    destruct sign as [[|]|]; cbn [negb andb];
      repeat match goal with
             | |- context [Z.leb ?a ?b] => destruct (Z.leb_spec a b)
             | |- context [Z.ltb ?a ?b] => destruct (Z.ltb_spec a b)
             end; cbn [negb andb]; try reflexivity; try lia.
Qed.

End Numerals.

(* ===================================================================== *)
(** * The heap and the monad *)
(* ===================================================================== *)

Section Heap.

Implicit Types (h : heap) (a : addr) (x v : value) (xs : list value).

Lemma lookup_fresh h x : (h ++ [x]) !! length h = Some x.
Proof. by apply list_lookup_middle. Qed.

Lemma insert_fresh h x y : <[length h:=y]> (h ++ [x]) = h ++ [y].
Proof.
  replace (length h) with (length h + 0)%nat at 1 by lia.
  by rewrite insert_app_r.
Qed.

Lemma load_fresh h x path : load (h ++ [x]) (length h, path) = sub_load x path.
Proof. unfold load. cbn [fst snd]. by rewrite lookup_fresh. Qed.

Lemma store_fresh h x path y :
  store (h ++ [x]) (length h, path) y
  = match sub_store x path y with
    | Some x' => Some (h ++ [x'])
    | None => None
    end.
Proof.
  unfold store. cbn [fst snd]. rewrite lookup_fresh.
  destruct (sub_store x path y); [|reflexivity]. by rewrite insert_fresh.
Qed.

Lemma sub_store_load v path x v' :
  sub_store v path x = Some v' -> sub_load v' path = Some x.
Proof.
  revert v v'. induction path as [|i p IH]; intros v v' H; cbn in *.
  - congruence.
  - destruct v; try discriminate.
    destruct (fields !! i) as [fi|] eqn:Hi; [|discriminate].
    destruct (sub_store fi p x) as [fi'|] eqn:Hs; [|discriminate].
    injection H as <-.
    rewrite list_lookup_insert_eq by (by eapply lookup_lt_Some).
    by eapply IH.
Qed.

Lemma store_load h a x h' : store h a x = Some h' -> load h' a = Some x.
Proof.
  unfold store, load. destruct (h !! a.1) as [v|] eqn:Hv; [|discriminate].
  destruct (sub_store v a.2 x) as [v'|] eqn:Hs; [|discriminate].
  intros [= <-]. rewrite list_lookup_insert_eq by (by eapply lookup_lt_Some).
  by eapply sub_store_load.
Qed.

Lemma store_length h a x h' : store h a x = Some h' -> length h' = length h.
Proof.
  unfold store. destruct (h !! a.1); [|discriminate].
  destruct (sub_store _ _ _); [|discriminate].
  intros [= <-]. apply length_insert.
Qed.

Lemma store_other_cell h a x h' (l : nat) :
  store h a x = Some h' -> l <> a.1 -> h' !! l = h !! l.
Proof.
  unfold store. destruct (h !! a.1); [|discriminate].
  destruct (sub_store _ _ _); [|discriminate].
  intros [= <-] Hl. by rewrite list_lookup_insert_ne by congruence.
Qed.

Lemma load_take_eq (h' h1 : heap) a :
  take (length h1) h' = h1 -> a.1 < length h1 -> load h' a = load h1 a.
Proof.
  intros Ht Ha. unfold load.
  rewrite <- (lookup_take_lt h' (length h1) a.1 Ha), Ht. reflexivity.
Qed.

Lemma load_in_heap h a x : load h a = Some x -> a.1 < length h.
Proof.
  unfold load. destruct (h !! a.1) eqn:Hl; [|discriminate].
  intros _. by eapply lookup_lt_Some.
Qed.

(** Reading and writing field [i] of the struct in the last cell. *)
Lemma deref_field h xs i x :
  xs !! i = Some x ->
  deref (length h, [i]) (h ++ [VStruct xs]) = Done x (h ++ [VStruct xs]).
Proof. intros H. unfold deref. rewrite load_fresh. cbn. by rewrite H. Qed.

Lemma assign_field h xs i x y :
  xs !! i = Some x ->
  assign (length h, [i]) y (h ++ [VStruct xs])
  = Done tt (h ++ [VStruct (<[i:=y]> xs)]).
Proof. intros H. unfold assign. rewrite store_fresh. cbn. by rewrite H. Qed.

End Heap.

Lemma bind_ret_l {A B} (a : A) (f : A -> M B) : bind (ret a) f = f a.
Proof. reflexivity. Qed.

Lemma bind_Done {A B} (m : M A) (f : A -> M B) (h : heap) (a : A) (h' : heap) :
  m h = Done a h' -> bind m f h = f a h'.
Proof. unfold bind. by intros ->. Qed.

Lemma bind_inv {A B} (m : M A) (f : A -> M B) (h : heap) (b : B) (h2 : heap) :
  bind m f h = Done b h2 ->
  exists a h1, m h = Done a h1 /\ f a h1 = Done b h2.
Proof. unfold bind. destruct (m h) as [a h1|]; [eauto|discriminate]. Qed.

(* ===================================================================== *)
(** * The loop over the fields *)
(* ===================================================================== *)

Section Fields.

Variable lib : Lib.
Variable env : environ.

(** The converter, called on a field of the new record that still holds
    its zero value, changes that field at most. *)
Lemma decodeValue_fresh_field (s : string) (ft : reflect.type) (h1 : heap)
    (xs : list value) (i : nat) (r : option error) (h2 : heap) :
  xs !! i = Some (zero ft) ->
  decodeValue lib s (Direct (reflect.TPtr ft) (VPtr (Some (length h1, [i]))))
    (h1 ++ [VStruct xs]) = Done r h2 ->
  exists x', h2 = h1 ++ [VStruct (<[i:=x']> xs)].
Proof.
  intros Hi.
  assert (Hsame : exists x', h1 ++ [VStruct xs] = h1 ++ [VStruct (<[i:=x']> xs)]).
  { exists (zero ft). by rewrite list_insert_id. }
  unfold decodeValue.
  destruct ft as [b|u|name fs| |n e|e|k e|e| |].
  - destruct b;
      cbn -[assign deref strconv.ParseInt strconv.ParseUint strconv.ParseBool];
      unfold bind;
      try (match goal with
           | |- context [match ?p with (_, _) => _ end] =>
               destruct p as [v [err|]]
           end);
      unfold Value_SetString, Value_SetBool, Value_SetInt, Value_SetUint,
        Value_SetFloat, Value_SetComplex, mustBeAssignable, bind, ret;
      cbn -[assign deref];
      rewrite ?(assign_field _ _ _ _ _ Hi);
      intros [= <- <-]; eauto.
  - (* a pointer field: it is nil, and the value behind it is invalid *)
    cbn -[assign deref]. unfold bind, ret. cbn -[assign deref].
    rewrite (deref_field _ _ _ _ Hi). cbn.
    intros [= <- <-]; eauto.
  - (* a struct field *)
    cbn -[assign deref]. unfold bind, ret. cbn -[assign deref].
    rewrite (deref_field _ _ _ _ Hi).
    destruct (Unmarshal lib s _ _) as [x' err].
    rewrite (assign_field _ _ _ _ _ Hi).
    intros [= <- <-]; eauto.
  - (* time.Time *)
    cbn -[assign deref parseTime]. unfold bind, ret.
    destruct (parseTime lib s) as [t [err|]].
    + intros [= <- <-]; eauto.
    + cbn -[assign deref]. unfold bind, ret.
      rewrite (assign_field _ _ _ _ _ Hi).
      intros [= <- <-]; eauto.
  - cbn -[assign deref]. unfold bind, ret. cbn -[assign deref].
    rewrite (deref_field _ _ _ _ Hi).
    destruct (Unmarshal lib s _ _) as [x' err].
    rewrite (assign_field _ _ _ _ _ Hi).
    intros [= <- <-]; eauto.
  - cbn -[assign deref]. unfold bind, ret. cbn -[assign deref].
    rewrite (deref_field _ _ _ _ Hi).
    destruct (Unmarshal lib s _ _) as [x' err].
    rewrite (assign_field _ _ _ _ _ Hi).
    intros [= <- <-]; eauto.
  - cbn -[assign deref]. unfold bind, ret. cbn -[assign deref].
    rewrite (deref_field _ _ _ _ Hi).
    destruct (Unmarshal lib s _ _) as [x' err].
    rewrite (assign_field _ _ _ _ _ Hi).
    intros [= <- <-]; eauto.
  - cbn. unfold ret. intros [= <- <-]; eauto.
  - cbn. unfold ret. intros [= <- <-]; eauto.
  - cbn. unfold ret. intros [= <- <-]; eauto.
Qed.


(** A field that is passed by is not touched. *)
Lemma fields_loop_skip (newVal : Value) (f : reflect.StructField)
    (rest : list reflect.StructField) (i : nat) :
  skipped env f = true ->
  fields_loop lib env newVal (f :: rest) i = fields_loop lib env newVal rest (S i).
Proof.
  unfold skipped, looked_up. intros H. cbn [fields_loop].
  destruct (negb (String.eqb (reflect.PkgPath f) EmptyString)); [reflexivity|].
  cbn [orb] in H.
  destruct (probe env (getFieldTags f) EmptyString EmptyString) as [s tag].
  cbn [fst] in H. by rewrite H.
Qed.

(** A field that is not passed by goes to the converter, with the value
    and the key of the probe. *)
Lemma fields_loop_visit (newVal : Value) (f : reflect.StructField)
    (rest : list reflect.StructField) (i : nat) :
  skipped env f = false ->
  fields_loop lib env newVal (f :: rest) i
  = (nv <- Value_Elem newVal ;;
     fVal <- Value_Field nv i ;;
     a <- Value_Addr fVal ;;
     err <- decodeValue lib (looked_up env f) a ;;
     match err with
     | Some _ =>
         let tag := (probe env (getFieldTags f) EmptyString EmptyString).2 in
         ret (Some (ofDecodeError (newDecodeError
                ("unable to decode value in field '" ++ tag ++ "'") tag err)))
     | None => fields_loop lib env newVal rest (S i)
     end).
Proof.
  unfold skipped, looked_up. intros H. cbn [fields_loop].
  apply orb_false_iff in H as [H1 H2]. rewrite H1.
  destruct (probe env (getFieldTags f) EmptyString EmptyString) as [s tag].
  cbn [fst snd] in *. by rewrite H2.
Qed.

(** The loop over the fields works in the new record alone: the cells
    that existed before are as they were, and in the new record the fields
    passed by hold their zero value. *)
Lemma fields_loop_inv (name : string) (all : list reflect.StructField)
    (h1 : heap) (fs : list reflect.StructField) :
  forall (i : nat) (xs : list value) (r : option error) (h2 : heap),
  drop i all = fs ->
  (forall j f, all !! j = Some f -> (i <= j \/ skipped env f = true) ->
     xs !! j = Some (zero (reflect.Typ f))) ->
  fields_loop lib env
    (Direct (reflect.TPtr (reflect.TStruct name all)) (VPtr (Some (length h1, []))))
    fs i (h1 ++ [VStruct xs]) = Done r h2 ->
  exists xs', h2 = h1 ++ [VStruct xs'] /\
    (r = None -> forall j f, all !! j = Some f -> skipped env f = true ->
       xs' !! j = Some (zero (reflect.Typ f))).
Proof.
  induction fs as [|f rest IH]; intros i xs r h2 Hdrop Hinv.
  - cbn. unfold ret. intros [= <- <-]. exists xs. split; [reflexivity|].
    intros _ j g Hj Hs. apply Hinv; auto.
  - assert (Hf : all !! i = Some f).
    { pose proof (lookup_drop all i 0) as Hl.
      rewrite Hdrop, Nat.add_0_r in Hl. by rewrite <- Hl. }
    assert (Hrest : drop (S i) all = rest).
    { pose proof (drop_drop all 1 i) as Hd.
      rewrite Hdrop, Nat.add_1_r in Hd. by rewrite <- Hd. }
    destruct (skipped env f) eqn:Hskip.
    + rewrite fields_loop_skip by exact Hskip.
      apply IH; [exact Hrest|].
      intros j g Hj [Hle|Hs]; apply Hinv; auto. left. lia.
    + rewrite fields_loop_visit by exact Hskip.
      assert (Hi : xs !! i = Some (zero (reflect.Typ f))) by (apply Hinv; auto).
      cbn [Value_Elem content]. rewrite !bind_ret_l. cbv beta.
      cbn [Value_Field reflect.Type_fields]. rewrite Hf, bind_ret_l. cbv beta.
      cbn [Value_Addr fst snd app]. rewrite bind_ret_l. cbv beta.
      intros Hrun. apply bind_inv in Hrun as (err & h3 & Hdv & Hrun).
      revert Hrun.
      destruct (decodeValue_fresh_field _ _ _ _ _ _ _ Hi Hdv) as [x' ->].
      destruct err as [e|].
      * cbv zeta. unfold ret. intros [= <- <-]. eexists. split; [reflexivity|].
        discriminate.
      * apply IH; [exact Hrest|].
        intros j g Hj Hor.
        assert (j <> i).
        { intros ->. rewrite Hf in Hj. injection Hj as <-.
          destruct Hor as [?|?]; [lia|congruence]. }
        rewrite list_lookup_insert_ne by congruence.
        apply Hinv; [exact Hj|]. destruct Hor; [left; lia|by right].
Qed.

End Fields.

(* ===================================================================== *)
(** * The walk down the references *)
(* ===================================================================== *)

Section Walk.

Lemma deref_loop_turn (te : reflect.type) (val : Value) (h : heap) :
  deref_loop (reflect.TPtr te) val h
  = (val' <- deref_turn te val ;; deref_loop te val') h.
Proof.
  cbn [deref_loop]. unfold deref_turn, bind.
  destruct (Value_IsNil val h) as [nil h0|]; [|reflexivity].
  destruct ((if nil then _ else ret tt) h0) as [u h1|]; [|reflexivity].
  destruct (Value_Elem val h1); reflexivity.
Qed.

(** A turn from a pointer ends on the variable the pointer points to. *)
Lemma deref_turn_Indirect (te : reflect.type) (val val' : Value) (h h1 : heap) :
  has_type val (reflect.TPtr te) ->
  deref_turn te val h = Done val' h1 ->
  exists a, val' = Indirect te a.
Proof.
  intros Hty Hrun. unfold deref_turn in Hrun.
  apply bind_inv in Hrun as (nil & h0 & Hnil & Hrun).
  apply bind_inv in Hrun as (u & h2 & Hset & Hrun).
  destruct val as [|t x|t a0]; cbn in Hty; [contradiction| |]; subst t.
  - (* held by the handle: it cannot be set *)
    cbn in Hnil. injection Hnil as <- <-.
    destruct (is_nil x) eqn:Hx.
    + apply bind_inv in Hset as (n & h3 & _ & Hset). discriminate Hset.
    + unfold ret in Hset. injection Hset as _ <-.
      cbn in Hrun. unfold ret, panic in Hrun.
      destruct x as [| | | | | |[a|]| | | | | | | |];
        try discriminate Hrun; try discriminate Hx.
      injection Hrun as <- _. eauto.
  - cbn in Hnil. apply bind_inv in Hnil as (x & h3 & Hx & Hnil).
    injection Hnil as <- <-.
    cbn in Hrun. apply bind_inv in Hrun as (y & h4 & Hy & Hrun).
    destruct (is_nil x) eqn:Hnilx.
    + (* nil: a new record is stored first, and read back *)
      apply bind_inv in Hset as (n & h5 & Hn & Hset).
      unfold deref in Hx. destruct (load h a0) as [z|] eqn:Hz; [|discriminate].
      injection Hx as -> <-.
      cbn in Hn. injection Hn as <- <-.
      cbn in Hset.
      unfold assign in Hset.
      destruct (store _ a0 _) as [h6|] eqn:Hst; [|discriminate].
      injection Hset as _ <-.
      unfold deref in Hy. rewrite (store_load _ _ _ _ Hst) in Hy.
      injection Hy as <- <-. injection Hrun as <- _. eauto.
    + unfold deref in Hx. destruct (load h a0) as [z|] eqn:Hz; [|discriminate].
      injection Hx as -> <-.
      unfold ret in Hset. injection Hset as _ <-.
      unfold deref in Hy. rewrite Hz in Hy. injection Hy as <- <-.
      unfold ret, panic in Hrun.
      destruct x as [| | | | | |[a|]| | | | | | | |];
        try discriminate Hrun; try discriminate Hnilx.
      injection Hrun as <- _. eauto.
Qed.

Lemma deref_loop_Indirect (te : reflect.type) :
  forall (val : Value) (h : heap) (T : reflect.type) (val' : Value) (h1 : heap),
  has_type val (reflect.TPtr te) ->
  deref_loop (reflect.TPtr te) val h = Done (T, val') h1 ->
  T = Type_deref te /\ exists a, val' = Indirect T a.
Proof.
  induction te; intros val h T val' h1 Hty Hrun;
    rewrite deref_loop_turn in Hrun;
    apply bind_inv in Hrun as (v1 & h0 & Hturn & Hrun);
    destruct (deref_turn_Indirect _ _ _ _ _ Hty Hturn) as [a ->];
    try (injection Hrun as <- <- <-; split; [reflexivity|eauto]).
  eapply IHte; [|exact Hrun]. reflexivity.
Qed.

(** The walk from a pointer to an unset pointer to a record: a new zero
    record is allocated and the inner pointer set to it. *)
Lemma deref_loop_nil_inner (name : string) (fs : list reflect.StructField)
    (a0 : addr) (h : heap) :
  let T := reflect.TStruct name fs in
  load h a0 = Some (VPtr None) ->
  deref_loop (reflect.TPtr (reflect.TPtr T))
    (Direct (reflect.TPtr (reflect.TPtr T)) (VPtr (Some a0))) h
  = match store (h ++ [zero T]) a0 (VPtr (Some (length h, []))) with
    | Some h1 => Done (T, Indirect T (length h, [])) h1
    | None => Panic "invalid address"
    end.
Proof.
  intros T Hnil. subst T.
  cbn [deref_loop].
  unfold bind, ret, Value_IsNil, Value_Elem, Value_Kind, content, deref,
    reflect_New, Value_Set, content, alloc, assign, bind, ret.
  cbn [reflect.Type_Kind is_nil].
  rewrite Hnil. cbn [is_nil].
  destruct (store (h ++ [zero (reflect.TStruct name fs)]) a0 _) as [h1|] eqn:Hst;
    [|reflexivity].
  rewrite (store_load _ _ _ _ Hst). reflexivity.
Qed.

(** When every reference is set, the walk changes nothing. *)
Lemma deref_loop_chain_set (t : reflect.type) :
  forall (val : Value) (h : heap),
  has_type val t -> chain_set h t val ->
  exists val', deref_loop t val h = Done (Type_deref t, val') h.
Proof.
  induction t; intros val h Hty Hset; try (eexists; reflexivity).
  cbn [chain_set] in Hset. destruct Hset as (a & Hc & Hset).
  destruct (IHt (Indirect t a) h eq_refl Hset) as [val' Hrun].
  exists val'. rewrite deref_loop_turn. cbn [Type_deref].
  assert (Hturn : deref_turn t val h = Done (Indirect t a) h).
  { unfold deref_turn.
    destruct val as [|t0 x|t0 a0]; cbn in Hty; [contradiction| |]; subst t0.
    - cbn in Hc. injection Hc as ->. reflexivity.
    - cbn in Hc. cbn. unfold bind. rewrite Hc. cbn. rewrite Hc. reflexivity. }
  by rewrite (bind_Done _ _ _ _ _ Hturn).
Qed.

End Walk.

(* ===================================================================== *)
(** * The course of a call of [Decode] *)
(* ===================================================================== *)

Section DecodeRun.

Variable lib : Lib.
Variable env : environ.

Lemma zero_struct_fields (all : list reflect.StructField) (j : nat)
    (f : reflect.StructField) :
  all !! j = Some f ->
  map (fun f => zero (reflect.Typ f)) all !! j = Some (zero (reflect.Typ f)).
Proof. intros H. by rewrite list_lookup_fmap, H. Qed.

(** The course of a call of [Decode] on a pointer: the walk down the
    references ends on an addressable record; an error leaves the memory as
    the walk left it; a success stores the record built in the new cell. *)
Lemma Decode_run (te : reflect.type) (x : value) (h : heap)
    (r : option error) (h' : heap) :
  Decode lib env (Some (reflect.TPtr te, x)) h = Done r h' ->
  exists T a h1,
    deref_loop (reflect.TPtr te) (Direct (reflect.TPtr te) x) h
      = Done (T, Indirect T a) h1 /\
    match r with
    | Some _ => take (length h1) h' = h1
    | None =>
        exists rec h3,
          fields_loop lib env
            (Direct (reflect.TPtr T) (VPtr (Some (length h1, []))))
            (reflect.Type_fields T) 0 (h1 ++ [zero T]) = Done None h3 /\
          load h3 (length h1, []) = Some rec /\
          store h3 a rec = Some h' /\
          (forall name all, T = reflect.TStruct name all ->
             forall j f, all !! j = Some f -> skipped env f = true ->
               sub_load rec [j] = Some (zero (reflect.Typ f))) /\
          (T = reflect.TTime -> rec = zero reflect.TTime)
    end.
Proof.
  intros Hrun.
  change (Decode lib env (Some (reflect.TPtr te, x)) h)
    with ((r <- deref_loop (reflect.TPtr te) (Direct (reflect.TPtr te) x) ;;
           let '(t, val) := r in
           if negb (reflect.Kind_eqb (reflect.Type_Kind t) reflect.Struct)
           then ret (Some (ofDecodeError (newDecodeError
                  ("cannot decode into value of type: " ++ Type_String lib t)
                  EmptyString None)))
           else
             newVal <- reflect_New t ;;
             err <- fields_loop lib env newVal (reflect.Type_fields t) 0 ;;
             match err with
             | Some _ => ret err
             | None => nv <- Value_Elem newVal ;; Value_Set val nv ;;; ret None
             end) h) in Hrun.
  apply bind_inv in Hrun as ([T val] & h1 & Hwalk & Hrun).
  destruct (deref_loop_Indirect te (Direct (reflect.TPtr te) x) h T val h1
              eq_refl Hwalk) as [HT [a ->]].
  exists T, a, h1. split; [exact Hwalk|].
  destruct (negb (reflect.Kind_eqb (reflect.Type_Kind T) reflect.Struct)) eqn:Hk.
  { unfold ret in Hrun. injection Hrun as <- <-. apply firstn_all. }
  apply bind_inv in Hrun as (newVal & h2 & Hnew & Hrun).
  cbn in Hnew. injection Hnew as <- <-.
  apply bind_inv in Hrun as (err & h3 & Hloop & Hrun).
  destruct T as [b| |name all| | | | | | |]; try discriminate Hk.
  { destruct b; discriminate Hk. }
  - (* a struct *)
    cbn [zero reflect.Type_fields] in Hloop.
    destruct (fields_loop_inv lib env name all h1 all 0 _ _ _ eq_refl
                (fun j f Hj _ => zero_struct_fields all j f Hj) Hloop)
      as (xs' & -> & Hzero).
    destruct err as [e|].
    + unfold ret in Hrun. injection Hrun as <- <-. apply take_app_length.
    + cbn [Value_Elem content] in Hrun. rewrite !bind_ret_l in Hrun.
      cbv beta in Hrun.
      unfold Value_Set, content in Hrun.
      apply bind_inv in Hrun as (u & h4 & Hset & Hrun).
      unfold ret in Hrun. injection Hrun as <- <-.
      apply bind_inv in Hset as (c & h5 & Hc & Hset).
      unfold deref in Hc. rewrite load_fresh in Hc. cbn in Hc.
      injection Hc as <- <-.
      unfold assign in Hset.
      destruct (store _ a _) as [h6|] eqn:Hst; [|discriminate].
      injection Hset as _ <-.
      exists (VStruct xs'), (h1 ++ [VStruct xs']).
      split; [exact Hloop|]. split; [by rewrite load_fresh|].
      split; [exact Hst|]. split; [|discriminate].
      intros name' all' [= <- <-] j f Hj Hs. cbn.
      by rewrite (Hzero eq_refl j f Hj Hs).
  - (* time.Time: no field is exported *)
    cbn in Hloop. unfold ret in Hloop. injection Hloop as <- <-.
    cbn [Value_Elem content] in Hrun. rewrite !bind_ret_l in Hrun.
      cbv beta in Hrun.
    unfold Value_Set, content in Hrun.
    apply bind_inv in Hrun as (u & h4 & Hset & Hrun).
    unfold ret in Hrun. injection Hrun as <- <-.
    apply bind_inv in Hset as (c & h5 & Hc & Hset).
    unfold deref in Hc. rewrite load_fresh in Hc. cbn in Hc.
    injection Hc as <- <-.
    unfold assign in Hset.
    destruct (store _ a _) as [h6|] eqn:Hst; [|discriminate].
    injection Hset as _ <-.
    exists (VTime time.zero), (h1 ++ [VTime time.zero]).
    split; [reflexivity|]. split; [by rewrite load_fresh|].
    split; [exact Hst|]. split; [discriminate|reflexivity].
Qed.

End DecodeRun.

(* ===================================================================== *)
(** * An empty value against an unset variable *)
(* ===================================================================== *)

Section EmptyVersusUnset.

Variable lib : Lib.

Lemma probe_set_empty_vs_unset (env : environ) (k : string) (tags : list string) :
  later_unset env k tags = true ->
  forall s tag, agree (<[k:=EmptyString]> env) (delete k env) tags s tag.
Proof.
  induction tags as [|k' rest IH]; intros Hlater s tag.
  - left. reflexivity.
  - cbn [later_unset] in Hlater. unfold agree.
    destruct (String.eqb_spec k' k) as [->|Hne].
    + right. rewrite probe_found with (v := EmptyString) by apply lookup_insert_eq.
      split; [reflexivity|].
      rewrite probe_skip by apply lookup_delete_eq.
      apply probe_none_present.
      apply Forall_forall. intros k'' Hin.
      rewrite forallb_forall in Hlater. specialize (Hlater k'').
      rewrite <- list_elem_of_In in Hlater. specialize (Hlater Hin).
      apply orb_true_iff in Hlater as [Hk|Hk].
      * apply String.eqb_eq in Hk as ->. apply lookup_delete_eq.
      * unfold unset_in in Hk.
        destruct (decide (k'' = k)) as [->|Hne]; [apply lookup_delete_eq|].
        rewrite lookup_delete_ne by congruence.
        destruct (env !! k''); [discriminate|reflexivity].
    + destruct (env !! k') as [v|] eqn:Hk'.
      * left. rewrite !probe_found with (v := v); [reflexivity| |].
        -- by rewrite lookup_delete_ne by congruence.
        -- by rewrite lookup_insert_ne by congruence.
      * rewrite !probe_skip.
        -- apply IH, Hlater.
        -- by rewrite lookup_delete_ne by congruence.
        -- by rewrite lookup_insert_ne by congruence.
Qed.

Lemma fields_loop_env_ext (env1 env2 : environ) (newVal : Value)
    (fs : list reflect.StructField) :
  (forall f, f ∈ fs -> reflect.PkgPath f = EmptyString ->
     agree env1 env2 (getFieldTags f) EmptyString EmptyString) ->
  forall i h, fields_loop lib env1 newVal fs i h = fields_loop lib env2 newVal fs i h.
Proof.
  induction fs as [|f rest IH]; intros Hag i h; [reflexivity|].
  assert (IH' : forall i h, fields_loop lib env1 newVal rest i h
                            = fields_loop lib env2 newVal rest i h).
  { apply IH. intros g Hg. apply Hag. by right. }
  cbn [fields_loop].
  destruct (String.eqb_spec (reflect.PkgPath f) EmptyString) as [Hexp|_];
    cbn [negb]; [|apply IH'].
  specialize (Hag f ltac:(by left) Hexp). unfold agree in Hag.
  destruct (probe env1 (getFieldTags f) EmptyString EmptyString) as [s1 t1].
  destruct (probe env2 (getFieldTags f) EmptyString EmptyString) as [s2 t2].
  destruct Hag as [[= -> ->]|[H1 H2]].
  - destruct (String.length s2 =? 0)%nat; [apply IH'|].
    unfold bind.
    destruct (Value_Elem newVal h) as [nv h0|]; [|reflexivity].
    destruct (Value_Field nv i h0) as [fVal h1|]; [|reflexivity].
    destruct (Value_Addr fVal h1) as [a h2|]; [|reflexivity].
    destruct (decodeValue lib s2 a h2) as [[e|] h3|]; [reflexivity|apply IH'|reflexivity].
  - cbn [fst] in H1, H2. subst s1 s2. cbn. apply IH'.
Qed.

Lemma Decode_env_ext (env1 env2 : environ) (v : iface) (h : heap) :
  (forall f, f ∈ iface_fields v -> reflect.PkgPath f = EmptyString ->
     agree env1 env2 (getFieldTags f) EmptyString EmptyString) ->
  Decode lib env1 v h = Decode lib env2 v h.
Proof.
  intros Hag. destruct v as [[t x]|]; [|reflexivity].
  destruct t as [b|te|name fs| | | | | | |]; try reflexivity.
  cbn [iface_fields Type_deref] in Hag.
  unfold Decode.
  cbn [reflect_ValueOf Value_Kind reflect.Type_Kind reflect.Kind_eqb negb reflect_TypeOf].
  unfold bind.
  destruct (deref_loop (reflect.TPtr te) (Direct (reflect.TPtr te) x) h)
    as [[T val] h1|] eqn:Hwalk; [|reflexivity].
  destruct (deref_loop_Indirect te (Direct (reflect.TPtr te) x) h T val h1
              eq_refl Hwalk) as [-> [a ->]].
  destruct (negb _); [reflexivity|].
  destruct (reflect_New (Type_deref te) h1) as [newVal h2|]; [|reflexivity].
  rewrite (fields_loop_env_ext env1 env2 newVal _ Hag). reflexivity.
Qed.

End EmptyVersusUnset.

(* ===================================================================== *)
(** * Integer fields *)
(* ===================================================================== *)

Section Integers.

Local Open Scope Z_scope.

Variable lib : Lib.

Lemma decodeValue_signed (s : string) (b : reflect.basic) (w : Z) (a : addr)
    (h : heap) :
  signed_width b = Some w ->
  decodeValue lib s (Direct (reflect.TPtr (reflect.TBasic b)) (VPtr (Some a))) h
  = match strconv.ParseInt s 64 with
    | (_, Some e) => Done (Some e) h
    | (i, None) =>
        match store h a (VInt (math.wrap_signed w i)) with
        | Some h' => Done None h'
        | None => Panic "invalid address"
        end
    end.
Proof.
  intros Hw.
  destruct b; try discriminate Hw; injection Hw as <-;
    cbn -[strconv.ParseInt assign math.wrap_signed];
    destruct (strconv.ParseInt s 64) as [i [e|]]; try reflexivity;
    unfold Value_SetInt, mustBeAssignable, bind, ret, assign;
    cbn -[math.wrap_signed store];
    destruct (store h a _); reflexivity.
Qed.

Lemma decodeValue_unsigned (s : string) (b : reflect.basic) (w : Z) (a : addr)
    (h : heap) :
  unsigned_width b = Some w ->
  decodeValue lib s (Direct (reflect.TPtr (reflect.TBasic b)) (VPtr (Some a))) h
  = match strconv.ParseUint s 64 with
    | (_, Some e) => Done (Some e) h
    | (i, None) =>
        match store h a (VUint (math.wrap_unsigned w i)) with
        | Some h' => Done None h'
        | None => Panic "invalid address"
        end
    end.
Proof.
  intros Hw.
  destruct b; try discriminate Hw; injection Hw as <-;
    cbn -[strconv.ParseUint assign math.wrap_unsigned];
    destruct (strconv.ParseUint s 64) as [i [e|]]; try reflexivity;
    unfold Value_SetUint, mustBeAssignable, bind, ret, assign;
    cbn -[math.wrap_unsigned store];
    destruct (store h a _); reflexivity.
Qed.

Lemma wrap_signed_fits (w z : Z) :
  0 < w -> - 2 ^ (w - 1) <= z < 2 ^ (w - 1) -> math.wrap_signed w z = z.
Proof.
  intros Hw Hz. unfold math.wrap_signed.
  assert (H2 : 2 ^ w = 2 * 2 ^ (w - 1)).
  { rewrite <- Z.pow_succ_r by lia. f_equal. lia. }
  rewrite Z.mod_small by lia. lia.
Qed.

Lemma wrap_unsigned_fits (w z : Z) :
  0 <= z < 2 ^ w -> math.wrap_unsigned w z = z.
Proof. intros Hz. unfold math.wrap_unsigned. by rewrite Z.mod_small. Qed.

End Integers.

(* ===================================================================== *)
(** * The properties of the specification *)
(* ===================================================================== *)

Import Examples.

(** ** Errors and the destination *)

(** C1, amended: when [Decode] returns an error, no field of the record is
    modified and, if every reference on the way to the record is set, the
    whole memory of the caller is as before the call.  In general the
    memory is as the walk down the references left it: when the argument
    points to an unset pointer to a record, that pointer has been set to a
    new zero record, and stays so. *)
Theorem C1_error_keeps_record (lib : Lib) (env : environ) (v : iface)
    (h : heap) (e : error) (h' : heap) :
  Decode lib env v h = Done (Some e) h' ->
  (references_set h v -> take (length h) h' = h) /\
  (forall t x, v = Some (t, x) -> reflect.Type_Kind t = reflect.Ptr ->
     exists r h1, deref_loop t (Direct t x) h = Done r h1 /\
                  take (length h1) h' = h1) /\
  (forall name fs a0,
     v = Some (reflect.TPtr (reflect.TPtr (reflect.TStruct name fs)),
               VPtr (Some a0)) ->
     load h a0 = Some (VPtr None) ->
     load h' a0 = Some (VPtr (Some (length h, []))) /\
     load h' (length h, []) = Some (zero (reflect.TStruct name fs))).
Proof.
  intros Hrun.
  assert (Hwalked : forall t x, v = Some (t, x) ->
            reflect.Type_Kind t = reflect.Ptr ->
            exists r h1, deref_loop t (Direct t x) h = Done r h1 /\
                         take (length h1) h' = h1).
  { intros t x -> Hk.
    destruct t as [b|te|name fs| | | | | | |]; try discriminate Hk.
    { destruct b; discriminate Hk. }
    destruct (Decode_run lib env te x h _ _ Hrun) as (T & a & h1 & Hwalk & Htake).
    eauto. }
  assert (Hinner : forall name fs a0,
            v = Some (reflect.TPtr (reflect.TPtr (reflect.TStruct name fs)),
                      VPtr (Some a0)) ->
            load h a0 = Some (VPtr None) ->
            load h' a0 = Some (VPtr (Some (length h, []))) /\
            load h' (length h, []) = Some (zero (reflect.TStruct name fs))).
  { intros name fs a0 Hv Hnil.
    destruct (Hwalked _ _ Hv eq_refl) as (r & h1 & Hwalk & Htake).
    rewrite (deref_loop_nil_inner name fs a0 h Hnil) in Hwalk.
    destruct (store _ a0 _) as [h2|] eqn:Hst; [|discriminate Hwalk].
    injection Hwalk as _ <-.
    pose proof (store_length _ _ _ _ Hst) as Hlen.
    rewrite length_app in Hlen. cbn [length] in Hlen.
    pose proof (load_in_heap _ _ _ Hnil) as Ha0.
    split.
    - rewrite (load_take_eq h' h2 a0 Htake) by lia. by eapply store_load.
    - rewrite (load_take_eq h' h2 (length h, []) Htake) by (cbn; lia).
      unfold load. cbn [fst snd].
      rewrite (store_other_cell _ _ _ _ (length h) Hst) by lia.
      by rewrite lookup_fresh. }
  split; [|split; [exact Hwalked|exact Hinner]].
  intros Hset.
  destruct v as [[t x]|];
    [|cbn in Hrun; injection Hrun as _ <-; apply firstn_all].
  destruct t as [b|te|name fs| | | | | | |];
    try (cbn in Hrun; injection Hrun as _ <-; apply firstn_all).
  { destruct b; cbn in Hrun; injection Hrun as _ <-; apply firstn_all. }
  destruct (Decode_run lib env te x h _ _ Hrun) as (T & a & h1 & Hwalk & Htake).
  cbn [references_set] in Hset.
  destruct (deref_loop_chain_set (reflect.TPtr te) (Direct (reflect.TPtr te) x)
              h eq_refl Hset) as [val' Hwalk'].
  rewrite Hwalk' in Hwalk. injection Hwalk as _ _ <-. exact Htake.
Qed.

Lemma C1_witness :
  take (length config_heap)
    [VStruct [VInt 5; VString "old"; VInt 7]; VStruct [VInt 0; VString ""; VInt 0]]
  = config_heap.
Proof.
  refine (proj1 (C1_error_keeps_record RefLib.lib env_bad_port (ptr_to Config 0)
                   config_heap
                   (ofDecodeError (mkDecodeError "unable to decode value in field 'PORT'"
                      "PORT" (Some (NumError "ParseInt" "abc" ErrSyntax))))
                   _ _) _).
  - vm_compute. reflexivity.
  - cbn. eexists. split; reflexivity.
Defined.

(** The destination is a pointer to an unset pointer to the record: the
    error is returned, and the inner pointer is no longer nil. *)
Lemma C1_counterexample :
  Decode RefLib.lib env_bad_port
    (Some (reflect.TPtr (reflect.TPtr Config), VPtr (Some (0, [])))) [VPtr None]
  = Done (Some (ofDecodeError (mkDecodeError "unable to decode value in field 'PORT'"
                  "PORT" (Some (NumError "ParseInt" "abc" ErrSyntax)))))
      [VPtr (Some (1, [])); VStruct [VInt 0; VString ""; VInt 0];
       VStruct [VInt 0; VString ""; VInt 0]] /\
  [VPtr (Some (1, [])); VStruct [VInt 0; VString ""; VInt 0];
   VStruct [VInt 0; VString ""; VInt 0]] !! 0 <> [VPtr None] !! 0.
Proof. split; [vm_compute; reflexivity|discriminate]. Qed.

(** ** Date and time *)

(** C2, amended: when the three attempts all fail, [parseTime] returns the
    error of the first attempt (the RFC 3339 parse), not that of the
    last. *)
Theorem C2_all_fail_first_error (lib : Lib) (s : string)
    (t : time.T) (e1 : error) (f : float64) (e2 : error)
    (t' : time.T) (e3 : error) :
  time_Parse lib s = (t, Some e1) ->
  ParseFloat lib s = (f, Some e2) ->
  UnmarshalTime lib s t = (t', Some e3) ->
  parseTime lib s = (time.zero, Some e1).
Proof.
  intros H1 H2 H3. unfold parseTime. rewrite H1, H2, H3. reflexivity.
Qed.

Lemma C2_witness :
  parseTime RefLib.lib "abc"
  = (time.zero, Some (ParseError "abc" "cannot parse as RFC3339")).
Proof.
  eapply (C2_all_fail_first_error RefLib.lib "abc"); vm_compute; reflexivity.
Defined.

(** On "abc" the three attempts fail, and the error returned is not the
    one of the structured deserializer. *)
Lemma C2_counterexample :
  (time_Parse RefLib.lib "abc").2 <> None /\
  (ParseFloat RefLib.lib "abc").2 <> None /\
  (UnmarshalTime RefLib.lib "abc" (time_Parse RefLib.lib "abc").1).2 <> None /\
  (parseTime RefLib.lib "abc").2
  <> (UnmarshalTime RefLib.lib "abc" (time_Parse RefLib.lib "abc").1).2.
Proof. vm_compute. repeat split; discriminate. Qed.

(** C7: for a field of type [time.Time] the converter calls [parseTime],
    which tries RFC 3339 first, then a number of Unix seconds (the integer
    part the seconds, the fraction times 1e9 truncated the nanoseconds),
    then the structured deserializer, and stops at the first success.
    "2023-01-15T10:00:00Z" is parsed by the first, "1673776800" by the
    second. *)
Theorem C7_time_formats_in_order (lib : Lib) (s : string) :
  (forall t, time_Parse lib s = (t, None) -> parseTime lib s = (t, None)) /\
  (forall t e f, time_Parse lib s = (t, Some e) -> ParseFloat lib s = (f, None) ->
     parseTime lib s
     = (time.Unix (math.to_int64 (math.Modf f).1)
                  (math.to_int64 (math.mul (math.Modf f).2 (math.of_Z 1000000000))),
        None)) /\
  (forall t e f e' t', time_Parse lib s = (t, Some e) ->
     ParseFloat lib s = (f, Some e') -> UnmarshalTime lib s t = (t', None) ->
     parseTime lib s = (t', None)) /\
  (forall a h,
     decodeValue lib s (Direct (reflect.TPtr reflect.TTime) (VPtr (Some a))) h
     = match parseTime lib s with
       | (_, Some e) => Done (Some e) h
       | (t, None) =>
           match store h a (VTime t) with
           | Some h' => Done None h'
           | None => Panic "invalid address"
           end
       end) /\
  (parseTime RefLib.lib rfc3339_text = time_Parse RefLib.lib rfc3339_text /\
   parseTime RefLib.lib rfc3339_text = (time.mkT 1673776800 0 time.UTC, None)) /\
  ((time_Parse RefLib.lib unix_text).2 <> None /\
   parseTime RefLib.lib unix_text = (time.Unix 1673776800 0, None)).
Proof.
  repeat apply conj.
  - intros t H. unfold parseTime. by rewrite H.
  - intros t e f H1 H2. unfold parseTime. rewrite H1, H2.
    destruct (math.Modf f). reflexivity.
  - intros t e f e' t' H1 H2 H3. unfold parseTime. by rewrite H1, H2, H3.
  - intros a h. cbn. unfold bind, ret. cbn.
    destruct (parseTime lib s) as [t [e|]]; [reflexivity|].
    cbn. unfold bind, ret, assign. cbn. destruct (store h a (VTime t)); reflexivity.
  - vm_compute; reflexivity.
  - vm_compute; reflexivity.
  - vm_compute; discriminate.
  - vm_compute; reflexivity.
Qed.

(** A number with a fraction: half a second is 500000000 nanoseconds. *)
Lemma C7_witness :
  parseTime RefLib.lib "1673776800.5"
  = (time.mkT 1673776800 500000000 time.Local, None).
Proof.
  rewrite (proj1 (proj2 (C7_time_formats_in_order RefLib.lib "1673776800.5"))
             time.zero (ParseError "1673776800.5" "cannot parse as RFC3339")
             (S754_finite false 7020328729444352 (-22))).
  - vm_compute. reflexivity.
  - vm_compute. reflexivity.
  - vm_compute. reflexivity.
Defined.

(** ** Integers *)

(** C3, amended: the range of a base-10 numeral is checked against 64
    bits, whatever the width of the field.  A numeral that fits 64 bits is
    accepted and stored wrapped around to the width of the field (unchanged
    if it fits that width); one that does not fit 64 bits gives the range
    error of the parser. *)
Theorem C3_range_checked_at_64_bits (lib : Lib) (b : reflect.basic) (w : Z)
    (a : addr) (h : heap) (ds : list nat) :
  Forall (fun d => d < 10) ds -> ds <> [] ->
  (signed_width b = Some w ->
   forall sign,
     let s := numeral sign ds in
     let z := numeral_value sign ds in
     let run := decodeValue lib s
                  (Direct (reflect.TPtr (reflect.TBasic b)) (VPtr (Some a))) h in
     ((- 2 ^ 63 <= z < 2 ^ 63)%Z ->
        forall h', store h a (VInt (math.wrap_signed w z)) = Some h' ->
                   run = Done None h') /\
     (~ (- 2 ^ 63 <= z < 2 ^ 63)%Z ->
        run = Done (Some (NumError "ParseInt" s ErrRange)) h) /\
     ((- 2 ^ (w - 1) <= z < 2 ^ (w - 1))%Z -> math.wrap_signed w z = z)) /\
  (unsigned_width b = Some w ->
     let s := digits_string ds in
     let z := decimal_value ds 0 in
     let run := decodeValue lib s
                  (Direct (reflect.TPtr (reflect.TBasic b)) (VPtr (Some a))) h in
     ((z < 2 ^ 64)%Z ->
        forall h', store h a (VUint (math.wrap_unsigned w z)) = Some h' ->
                   run = Done None h') /\
     ((2 ^ 64 <= z)%Z ->
        run = Done (Some (NumError "ParseUint" s ErrRange)) h) /\
     ((z < 2 ^ w)%Z -> math.wrap_unsigned w z = z)).
Proof.
  intros Hds Hne. split.
  - intros Hw sign s z run. subst run.
    rewrite (decodeValue_signed lib s b w a h Hw).
    subst s z. rewrite ParseInt_numeral by assumption.
    repeat split.
    + intros Hz h' Hst.
      destruct (Z.leb_spec (- 2 ^ 63) (numeral_value sign ds)); [|lia].
      destruct (Z.ltb_spec (numeral_value sign ds) (2 ^ 63)); [|lia].
      cbn [andb]. by rewrite Hst.
    + intros Hz.
      destruct (Z.leb_spec (- 2 ^ 63) (numeral_value sign ds));
        destruct (Z.ltb_spec (numeral_value sign ds) (2 ^ 63));
        cbn [andb]; try reflexivity. lia.
    + intros Hz. apply wrap_signed_fits; [|exact Hz].
      destruct b; try discriminate Hw; injection Hw as <-; reflexivity.
  - intros Hw s z run. subst run.
    rewrite (decodeValue_unsigned lib s b w a h Hw).
    subst s z. rewrite ParseUint_digits by assumption.
    pose proof (decimal_value_ge ds 0 ltac:(lia)) as Hge.
    repeat split.
    + intros Hz h' Hst.
      destruct (Z.ltb_spec (decimal_value ds 0) (2 ^ 64)); [|lia].
      by rewrite Hst.
    + intros Hz.
      destruct (Z.ltb_spec (decimal_value ds 0) (2 ^ 64)); [lia|reflexivity].
    + intros Hz. apply wrap_unsigned_fits. lia.
Qed.

(** "-129" into an 8-bit signed field wraps around to 127. *)
Lemma C3_witness :
  decodeValue RefLib.lib "-129"
    (Direct (reflect.TPtr (reflect.TBasic reflect.Tint8)) (VPtr (Some (0, []))))
    [VInt 0]
  = Done None [VInt 127].
Proof.
  refine (proj1 (proj1 (C3_range_checked_at_64_bits RefLib.lib reflect.Tint8 8%Z
                          (0, []) [VInt 0] [1; 2; 9] _ _) eq_refl (Some true)) _ _ _).
  - repeat constructor.
  - discriminate.
  - vm_compute. split; [discriminate|reflexivity].
  - reflexivity.
Defined.

(** "300" into an 8-bit signed field: no error, the field holds 44. *)
Lemma C3_counterexample :
  decodeValue RefLib.lib "300"
    (Direct (reflect.TPtr (reflect.TBasic reflect.Tint8)) (VPtr (Some (0, []))))
    [VInt 0]
  = Done None [VInt 44].
Proof. vm_compute. reflexivity. Qed.

(** ** Keys *)

(** C4, amended: a field whose first existing key is set to the empty
    string is passed by (left at its zero value, no error); and setting a
    variable to the empty string gives the same result of [Decode] as
    unsetting it when, for every exported field, no candidate key listed
    after it is set (in particular when it is the only or the last key of
    the field). *)
Theorem C4_empty_value (lib : Lib) (env : environ) (k : string) :
  (forall (f : reflect.StructField) pre post newVal rest i,
     getFieldTags f = pre ++ k :: post ->
     Forall (fun k' => env !! k' = None /\ k' <> k) pre ->
     skipped (<[k := ""]> env) f = true /\
     fields_loop lib (<[k := ""]> env) newVal (f :: rest) i
     = fields_loop lib (<[k := ""]> env) newVal rest (S i)) /\
  (forall v h,
     (forall f, f ∈ iface_fields v -> reflect.PkgPath f = "" ->
        later_unset env k (getFieldTags f) = true) ->
     Decode lib (<[k := ""]> env) v h = Decode lib (delete k env) v h).
Proof.
  split.
  - intros f pre post newVal rest i Htags Hpre.
    assert (Hs : skipped (<[k := ""]> env) f = true).
    { unfold skipped, looked_up. rewrite Htags.
      rewrite probe_first_present with (v := EmptyString).
      - apply orb_true_r.
      - eapply Forall_impl; [exact Hpre|]. intros k' [Hk' Hne].
        by rewrite lookup_insert_ne by congruence.
      - apply lookup_insert_eq. }
    split; [exact Hs|]. by apply fields_loop_skip.
  - intros v h Hlater. apply Decode_env_ext.
    intros f Hf Hexp. apply probe_set_empty_vs_unset. by apply Hlater.
Qed.

Lemma C4_witness :
  Decode RefLib.lib (<["NAME" := ""]> env_bad_port) (ptr_to Config 0) config_heap
  = Decode RefLib.lib (delete "NAME" env_bad_port) (ptr_to Config 0) config_heap.
Proof.
  apply (proj2 (C4_empty_value RefLib.lib env_bad_port "NAME")).
  intros f Hf _. cbn in Hf.
  repeat (apply elem_of_cons in Hf as [->|Hf]; [reflexivity|]).
  by apply elem_of_nil in Hf.
Defined.

(** With two candidate keys, an empty FIRST hides SECOND, an unset FIRST
    does not. *)
Lemma C4_counterexample :
  Decode RefLib.lib (<["FIRST" := ""]> env_second) (ptr_to TwoKeys 0)
    [VStruct [VString ""]]
  = Done None [VStruct [VString ""]; VStruct [VString ""]] /\
  Decode RefLib.lib (delete "FIRST" env_second) (ptr_to TwoKeys 0)
    [VStruct [VString ""]]
  = Done None [VStruct [VString "x"]; VStruct [VString "x"]].
Proof. split; vm_compute; reflexivity. Qed.

(** C5: the decode-tag's keys are used exclusively when there are any;
    otherwise the first comma-delimited segment of the serialization tag
    when it is not empty; otherwise the declared name.  A field tagged
    decode-tag "A" and serialization-tag "B", with A and B both set,
    resolves to A's value. *)
Theorem C5_tag_priority :
  (forall T (f : reflect.StructField_ T), getFieldTags f = resolve_keys_spec f) /\
  (forall (env : environ) (a b name : string) (ty : reflect.type),
     probe (<["A" := a]> (<["B" := b]> env))
       (getFieldTags (reflect.mkField name "" [("mpe", "A"); ("json", "B")] ty))
       "" ""
     = (a, "A")) /\
  Decode RefLib.lib env_AB (ptr_to TaggedTwice 0) [VStruct [VString "old"]]
  = Done None [VStruct [VString "1"]; VStruct [VString "1"]].
Proof.
  split; [|split].
  - intros T f. apply getFieldTags_spec.
  - intros env a b name ty.
    change (getFieldTags _) with ["A"].
    apply probe_found, lookup_insert_eq.
  - vm_compute. reflexivity.
Qed.

(** C6: the keys of a field are probed in list order and the first key that
    exists in the environment wins: its value is the one handed to the
    converter, and its name the one reported if the conversion fails. *)
Theorem C6_first_existing_key_wins (lib : Lib) (env : environ)
    (f : reflect.StructField) (pre : list string) (k : string)
    (post : list string) (v : string) :
  reflect.PkgPath f = "" ->
  getFieldTags f = pre ++ k :: post ->
  Forall (fun k' => env !! k' = None) pre ->
  env !! k = Some v ->
  probe env (getFieldTags f) "" "" = (v, k) /\
  (v <> "" ->
   forall newVal rest i,
     fields_loop lib env newVal (f :: rest) i
     = (nv <- Value_Elem newVal ;;
        fVal <- Value_Field nv i ;;
        a <- Value_Addr fVal ;;
        err <- decodeValue lib v a ;;
        match err with
        | Some _ =>
            ret (Some (ofDecodeError (newDecodeError
                   ("unable to decode value in field '" ++ k ++ "'") k err)))
        | None => fields_loop lib env newVal rest (S i)
        end)).
Proof.
  intros Hexp Htags Hpre Hk.
  assert (Hp : probe env (getFieldTags f) "" "" = (v, k)).
  { rewrite Htags. by apply probe_first_present. }
  split; [exact Hp|]. intros Hv newVal rest i.
  rewrite fields_loop_visit.
  - unfold looked_up. rewrite Hp. reflexivity.
  - unfold skipped, looked_up. rewrite Hexp, Hp. cbn. by destruct v.
Qed.

(** The tags "FIRST,SECOND" when only SECOND is set: the probe, and the
    run of [Decode]. *)
Lemma C6_witness :
  probe env_second
    (getFieldTags (reflect.mkField "Value" "" [("mpe", "FIRST,SECOND")]
                     (reflect.TBasic reflect.Tstring))) "" ""
  = ("x", "SECOND") /\
  Decode RefLib.lib env_second (ptr_to TwoKeys 0) [VStruct [VString ""]]
  = Done None [VStruct [VString "x"]; VStruct [VString "x"]].
Proof.
  split.
  - refine (proj1 (C6_first_existing_key_wins RefLib.lib env_second _
                     ["FIRST"] "SECOND" [] "x" _ _ _ _)).
    + reflexivity.
    + reflexivity.
    + repeat constructor.
    + reflexivity.
  - vm_compute. reflexivity.
Defined.

(** ** Kinds without a conversion *)

(** C8: on a field of channel or function kind the converter returns
    success and leaves the memory as it is; on a field of a kind that it
    has no case for, it returns the error "unsupported field kind: " with
    the name of the kind. *)
Theorem C8_unsupported_kinds (lib : Lib) (s : string) (t : reflect.type)
    (a : addr) (h : heap) :
  (is_chan_or_func (reflect.Type_Kind t) = true ->
   decodeValue lib s (Direct (reflect.TPtr t) (VPtr (Some a))) h = Done None h) /\
  (recognized (reflect.Type_Kind t) = false ->
   decodeValue lib s (Direct (reflect.TPtr t) (VPtr (Some a))) h
   = Done (Some (Errorf ("unsupported field kind: "
                         ++ reflect.Kind_String (reflect.Type_Kind t)))) h).
Proof.
  split; intros Hk.
  - destruct t as [b| | | | | | | | |]; try discriminate Hk; try reflexivity.
    destruct b; discriminate Hk.
  - destruct t as [b| | | | | | | | |]; try discriminate Hk; try reflexivity.
    destruct b; try discriminate Hk; reflexivity.
Qed.

(** A channel and an interface field: the converter alone, and [Decode]
    with the variable of the field set. *)
Lemma C8_witness :
  decodeValue RefLib.lib "x"
    (Direct (reflect.TPtr (reflect.TChan (reflect.TBasic reflect.Tint)))
       (VPtr (Some (0, [])))) [VChan None]
  = Done None [VChan None] /\
  decodeValue RefLib.lib "x"
    (Direct (reflect.TPtr reflect.TInterface) (VPtr (Some (0, [])))) [VIface None]
  = Done (Some (Errorf "unsupported field kind: interface")) [VIface None] /\
  Decode RefLib.lib (<["C" := "x"]> ∅) (ptr_to Handles 0)
    [VStruct [VChan None; VIface None]]
  = Done None [VStruct [VChan None; VIface None];
               VStruct [VChan None; VIface None]] /\
  Decode RefLib.lib (<["I" := "x"]> ∅) (ptr_to Handles 0)
    [VStruct [VChan None; VIface None]]
  = Done (Some (ofDecodeError (mkDecodeError "unable to decode value in field 'I'"
                  "I" (Some (Errorf "unsupported field kind: interface")))))
      [VStruct [VChan None; VIface None]; VStruct [VChan None; VIface None]].
Proof.
  split; [|split; [|split]].
  - apply (proj1 (C8_unsupported_kinds RefLib.lib "x"
                    (reflect.TChan (reflect.TBasic reflect.Tint)) (0, [])
                    [VChan None])).
    reflexivity.
  - apply (proj2 (C8_unsupported_kinds RefLib.lib "x" reflect.TInterface (0, [])
                    [VIface None])).
    reflexivity.
  - vm_compute. reflexivity.
  - vm_compute. reflexivity.
Defined.

(** ** The shape of the argument *)

(** C9: on a nil pointer passed directly, [Decode] returns no error at
    all: the allocation step is applied to the outermost reference, whose
    handle is not addressable, and the call panics in [Value.Set]. *)
Theorem C9_nil_pointer_argument_panics (lib : Lib) (env : environ)
    (t : reflect.type) (h : heap) :
  Decode lib env (Some (reflect.TPtr t, VPtr None)) h
  = Panic "reflect: reflect.Value.Set using unaddressable value".
Proof. reflexivity. Qed.

(** ** Success *)

(** C10: on success the record is replaced by the one built in a newly
    allocated instance; every field that is not exported, or whose lookup
    found no key or an empty value, holds its zero value. *)
Theorem C10_success_replaces_record (lib : Lib) (env : environ) (v : iface)
    (h h' : heap) :
  Decode lib env v h = Done None h' ->
  exists te x T a h1 rec h3,
    v = Some (reflect.TPtr te, x) /\
    deref_loop (reflect.TPtr te) (Direct (reflect.TPtr te) x) h
      = Done (T, Indirect T a) h1 /\
    fields_loop lib env (Direct (reflect.TPtr T) (VPtr (Some (length h1, []))))
      (reflect.Type_fields T) 0 (h1 ++ [zero T]) = Done None h3 /\
    load h3 (length h1, []) = Some rec /\
    load h' a = Some rec /\
    (forall name all, T = reflect.TStruct name all ->
       forall j f, all !! j = Some f -> skipped env f = true ->
         sub_load rec [j] = Some (zero (reflect.Typ f))) /\
    (T = reflect.TTime -> rec = zero reflect.TTime).
Proof.
  intros Hrun.
  destruct v as [[t x]|]; [|discriminate Hrun].
  destruct t as [b|te|name fs| | | | | | |]; try discriminate Hrun.
  { destruct b; discriminate Hrun. }
  destruct (Decode_run lib env te x h _ _ Hrun)
    as (T & a & h1 & Hwalk & rec & h3 & Hloop & Hrec & Hst & Hz & Ht).
  exists te, x, T, a, h1, rec, h3.
  repeat split; try assumption. by eapply store_load.
Qed.

(** [Config] with only NAME set: Port and hidden end at zero, whatever
    they held. *)
Lemma C10_witness :
  exists te x T a h1 rec h3,
    ptr_to Config 0 = Some (reflect.TPtr te, x) /\
    deref_loop (reflect.TPtr te) (Direct (reflect.TPtr te) x) config_heap
      = Done (T, Indirect T a) h1 /\
    fields_loop RefLib.lib env_name
      (Direct (reflect.TPtr T) (VPtr (Some (length h1, []))))
      (reflect.Type_fields T) 0 (h1 ++ [zero T]) = Done None h3 /\
    load h3 (length h1, []) = Some rec /\
    load [VStruct [VInt 0; VString "db"; VInt 0];
          VStruct [VInt 0; VString "db"; VInt 0]] a = Some rec /\
    (forall name all, T = reflect.TStruct name all ->
       forall j f, all !! j = Some f -> skipped env_name f = true ->
         sub_load rec [j] = Some (zero (reflect.Typ f))) /\
    (T = reflect.TTime -> rec = zero reflect.TTime).
Proof.
  apply (C10_success_replaces_record RefLib.lib env_name (ptr_to Config 0)
           config_heap).
  vm_compute. reflexivity.
Defined.

(* ===================================================================== *)
(** * [Decode] as a function of the fields *)
(* ===================================================================== *)

Section Build.

Variable lib : Lib.
Variable env : environ.

(** On a field of the new record that holds its zero value the converter
    does not panic: it stores the converted value and returns the error. *)
Lemma decodeValue_fresh_converted (s : string) (ft : reflect.type) (h1 : heap)
    (xs : list value) (i : nat) :
  xs !! i = Some (zero ft) ->
  decodeValue lib s (Direct (reflect.TPtr ft) (VPtr (Some (length h1, [i]))))
    (h1 ++ [VStruct xs])
  = Done (converted lib ft s).2
      (h1 ++ [VStruct (<[i:=(converted lib ft s).1]> xs)]).
Proof.
  intros Hi.
  assert (Hsame : <[i:=zero ft]> xs = xs) by (by apply list_insert_id).
  unfold decodeValue, converted.
  destruct ft as [b|u|name fs| |n e|e|k e|e| |].
  - destruct b;
      cbn -[assign deref strconv.ParseInt strconv.ParseUint strconv.ParseBool
            math.wrap_signed math.wrap_unsigned to_float32 zero];
      unfold bind;
      try (match goal with
           | |- context [match ?p with (_, _) => _ end] =>
               destruct p as [v [err|]]
           end);
      unfold Value_SetString, Value_SetBool, Value_SetInt, Value_SetUint,
        Value_SetFloat, Value_SetComplex, mustBeAssignable, bind, ret;
      cbn -[assign deref math.wrap_signed math.wrap_unsigned to_float32 zero];
      rewrite ?(assign_field _ _ _ _ _ Hi), ?Hsame; reflexivity.
  - cbn -[assign deref zero]. unfold bind, ret. cbn -[assign deref zero].
    rewrite (deref_field _ _ _ _ Hi). cbn -[zero]. by rewrite Hsame.
  - cbn -[assign deref zero]. unfold bind, ret. cbn -[assign deref zero].
    rewrite (deref_field _ _ _ _ Hi).
    destruct (Unmarshal lib s _ _) as [x' err].
    by rewrite (assign_field _ _ _ _ _ Hi).
  - cbn -[assign deref parseTime zero]. unfold bind, ret.
    destruct (parseTime lib s) as [t [err|]].
    + cbn -[zero]. by rewrite Hsame.
    + cbn -[assign deref zero]. unfold bind, ret.
      by rewrite (assign_field _ _ _ _ _ Hi).
  - cbn -[assign deref zero]. unfold bind, ret. cbn -[assign deref zero].
    rewrite (deref_field _ _ _ _ Hi).
    destruct (Unmarshal lib s _ _) as [x' err].
    by rewrite (assign_field _ _ _ _ _ Hi).
  - cbn -[assign deref zero]. unfold bind, ret. cbn -[assign deref zero].
    rewrite (deref_field _ _ _ _ Hi).
    destruct (Unmarshal lib s _ _) as [x' err].
    by rewrite (assign_field _ _ _ _ _ Hi).
  - cbn -[assign deref zero]. unfold bind, ret. cbn -[assign deref zero].
    rewrite (deref_field _ _ _ _ Hi).
    destruct (Unmarshal lib s _ _) as [x' err].
    by rewrite (assign_field _ _ _ _ _ Hi).
  - cbn -[zero]. unfold ret. by rewrite Hsame.
  - cbn -[zero]. unfold ret. by rewrite Hsame.
  - cbn -[zero]. unfold ret. by rewrite Hsame.
Qed.


(** The loop over the fields, run on the new record, is [build]. *)
Lemma fields_loop_build (name : string) (all : list reflect.StructField)
    (h1 : heap) (fs : list reflect.StructField) :
  forall (i : nat) (xs : list value),
  drop i all = fs ->
  (forall j f, all !! j = Some f -> i <= j ->
     xs !! j = Some (zero (reflect.Typ f))) ->
  fields_loop lib env
    (Direct (reflect.TPtr (reflect.TStruct name all)) (VPtr (Some (length h1, []))))
    fs i (h1 ++ [VStruct xs])
  = Done (build lib env fs i xs).2 (h1 ++ [VStruct (build lib env fs i xs).1]).
Proof.
  induction fs as [|f rest IH]; intros i xs Hdrop Hinv; [reflexivity|].
  assert (Hf : all !! i = Some f).
  { pose proof (lookup_drop all i 0) as Hl.
    rewrite Hdrop, Nat.add_0_r in Hl. by rewrite <- Hl. }
  assert (Hrest : drop (S i) all = rest).
  { pose proof (drop_drop all 1 i) as Hd.
    rewrite Hdrop, Nat.add_1_r in Hd. by rewrite <- Hd. }
  cbn [build]. destruct (skipped env f) eqn:Hskip.
  - rewrite fields_loop_skip by exact Hskip.
    apply IH; [exact Hrest|]. intros j g Hj Hle. apply Hinv; [exact Hj|lia].
  - rewrite fields_loop_visit by exact Hskip.
    assert (Hi : xs !! i = Some (zero (reflect.Typ f))) by (by apply Hinv).
    cbn [Value_Elem content]. rewrite !bind_ret_l. cbv beta.
    cbn [Value_Field reflect.Type_fields]. rewrite Hf, bind_ret_l. cbv beta.
    cbn [Value_Addr fst snd app]. rewrite bind_ret_l. cbv beta.
    rewrite (bind_Done _ _ _ _ _
               (decodeValue_fresh_converted (looked_up env f) (reflect.Typ f)
                  h1 xs i Hi)).
    destruct (converted lib (reflect.Typ f) (looked_up env f)) as [x [e|]];
      cbn [fst snd]; [reflexivity|].
    apply IH; [exact Hrest|]. intros j g Hj Hle.
    rewrite list_lookup_insert_ne by lia. apply Hinv; [exact Hj|lia].
Qed.

(** The loop over all the fields of a struct type, from its zero value. *)
Lemma fields_loop_built (name : string) (fs : list reflect.StructField)
    (h1 : heap) :
  fields_loop lib env
    (Direct (reflect.TPtr (reflect.TStruct name fs)) (VPtr (Some (length h1, []))))
    fs 0 (h1 ++ [zero (reflect.TStruct name fs)])
  = Done (built lib env fs).2 (h1 ++ [VStruct (built lib env fs).1]).
Proof.
  apply (fields_loop_build name fs h1 fs 0); [reflexivity|].
  intros j f Hj _. by apply zero_struct_fields.
Qed.

(** [build] keeps the number of fields. *)
Lemma build_length (fs : list reflect.StructField) :
  forall i xs, length (build lib env fs i xs).1 = length xs.
Proof.
  induction fs as [|f rest IH]; intros i xs; [reflexivity|].
  cbn [build]. destruct (skipped env f); [apply IH|].
  destruct (converted lib (reflect.Typ f) (looked_up env f)) as [x [e|]];
    cbn [fst]; [apply length_insert|].
  rewrite IH. apply length_insert.
Qed.

(** [build] leaves the fields before [i] as they are. *)
Lemma build_before (fs : list reflect.StructField) :
  forall i xs j, j < i -> (build lib env fs i xs).1 !! j = xs !! j.
Proof.
  induction fs as [|f rest IH]; intros i xs j Hj; [reflexivity|].
  cbn [build]. destruct (skipped env f); [apply IH; lia|].
  destruct (converted lib (reflect.Typ f) (looked_up env f)) as [x [e|]];
    cbn [fst].
  - apply list_lookup_insert_ne. lia.
  - rewrite IH by lia. apply list_lookup_insert_ne. lia.
Qed.

(** On success every field that is not passed by holds its converted
    value, whose conversion did not fail, and the others are untouched. *)
Lemma build_success (fs : list reflect.StructField) :
  forall i xs,
  length fs + i <= length xs ->
  (build lib env fs i xs).2 = None ->
  forall j f, fs !! j = Some f ->
    (build lib env fs i xs).1 !! (i + j)
    = (if skipped env f then xs !! (i + j)
       else Some (converted lib (reflect.Typ f) (looked_up env f)).1) /\
    (skipped env f = false ->
     (converted lib (reflect.Typ f) (looked_up env f)).2 = None).
Proof.
  induction fs as [|f rest IH]; intros i xs Hlen Hok j g Hj; [done|].
  cbn [length] in Hlen. cbn [build] in *.
  destruct (skipped env f) eqn:Hskip.
  - destruct j as [|j]; cbn in Hj.
    + injection Hj as <-. rewrite Hskip, Nat.add_0_r.
      split; [apply build_before; lia|discriminate].
    + replace (i + S j) with (S i + j) by lia.
      apply IH; [lia|exact Hok|exact Hj].
  - destruct (converted lib (reflect.Typ f) (looked_up env f)) as [x [e|]] eqn:Hc;
      cbn [fst snd] in *; [discriminate|].
    destruct j as [|j]; cbn in Hj.
    + injection Hj as <-. rewrite Hskip, Nat.add_0_r, Hc. cbn [fst snd].
      split; [|reflexivity].
      rewrite build_before by lia. apply list_lookup_insert_eq. lia.
    + replace (i + S j) with (S i + j) by lia.
      destruct (IH (S i) (<[i:=x]> xs) ltac:(rewrite length_insert; lia) Hok
                  j g Hj) as [H1 H2].
      split; [|exact H2]. rewrite H1.
      destruct (skipped env g); [|reflexivity].
      apply list_lookup_insert_ne. lia.
Qed.

(** The error of [build] is the one of the first field that fails. *)
Lemma build_error (fs : list reflect.StructField) :
  forall i xs,
  (build lib env fs i xs).2
  = match first_failure lib env fs with
    | Some f =>
        Some (field_error env f
                (converted lib (reflect.Typ f) (looked_up env f)).2)
    | None => None
    end.
Proof.
  induction fs as [|f rest IH]; intros i xs; [reflexivity|].
  cbn [build first_failure]. destruct (skipped env f); [apply IH|].
  destruct (converted lib (reflect.Typ f) (looked_up env f)) as [x [e|]] eqn:Hc;
    cbn [fst snd]; [by rewrite Hc|apply IH].
Qed.

End Build.

Section HeapMore.

Implicit Types (h : heap) (a : addr) (x v : value).

Lemma sub_store_some v path x old :
  sub_load v path = Some old -> is_Some (sub_store v path x).
Proof.
  revert v. induction path as [|i p IH]; intros v H; cbn in *; [eauto|].
  destruct v; try discriminate.
  destruct (fields !! i) as [fi|]; [|discriminate].
  destruct (IH fi H) as [fi' ->]. eauto.
Qed.

(** A variable that can be read can be written. *)
Lemma store_some h a x old : load h a = Some old -> is_Some (store h a x).
Proof.
  unfold load, store. destruct (h !! a.1) as [v|]; [|discriminate].
  intros H. destruct (sub_store_some v a.2 x old H) as [v' ->]. eauto.
Qed.

(** Writing below the end of the heap leaves the cells after it alone. *)
Lemma store_app_l h k a x :
  a.1 < length h ->
  store (h ++ k) a x
  = match store h a x with Some h' => Some (h' ++ k) | None => None end.
Proof.
  intros Ha. unfold store. rewrite lookup_app_l by exact Ha.
  destruct (h !! a.1) as [v|]; [|reflexivity].
  destruct (sub_store v a.2 x); [|reflexivity].
  by rewrite insert_app_l.
Qed.

Lemma load_app_l h k a : a.1 < length h -> load (h ++ k) a = load h a.
Proof. intros Ha. unfold load. by rewrite lookup_app_l. Qed.

Lemma store_middle h x k path y :
  store (h ++ x :: k) (length h, path) y
  = match sub_store x path y with
    | Some x' => Some (h ++ x' :: k)
    | None => None
    end.
Proof.
  unfold store. cbn [fst snd]. rewrite list_lookup_middle by reflexivity.
  destruct (sub_store x path y); [|reflexivity].
  replace (length h) with (length h + 0) at 1 by lia.
  by rewrite insert_app_r.
Qed.

End HeapMore.

Section DecodeStruct.

Variable lib : Lib.
Variable env : environ.

Lemma reflect_New_Done (t : reflect.type) (h : heap) :
  reflect_New t h
  = Done (Direct (reflect.TPtr t) (VPtr (Some (length h, [])))) (h ++ [zero t]).
Proof. reflexivity. Qed.

(** [Decode] on a pointer to a struct, in one equation. *)
Lemma Decode_struct_eq (name : string) (fs : list reflect.StructField)
    (a : addr) (h : heap) :
  Decode lib env (Some (reflect.TPtr (reflect.TStruct name fs), VPtr (Some a))) h
  = match built lib env fs with
    | (xs, Some e) => Done (Some e) (h ++ [VStruct xs])
    | (xs, None) =>
        match store (h ++ [VStruct xs]) a (VStruct xs) with
        | Some h' => Done None h'
        | None => Panic "invalid address"
        end
    end.
Proof.
  unfold Decode.
  cbn [reflect_ValueOf Value_Kind reflect.Type_Kind reflect.Kind_eqb negb
       reflect_TypeOf deref_loop].
  cbn [Value_IsNil Value_Kind reflect.Type_Kind content Value_Elem].
  rewrite !bind_ret_l. cbn [is_nil]. rewrite !bind_ret_l. cbv beta iota.
  cbn [reflect.Type_Kind reflect.Kind_eqb negb reflect_New].
  rewrite (bind_Done _ _ _ _ _ (reflect_New_Done (reflect.TStruct name fs) h)).
  cbn [reflect.Type_fields].
  rewrite (bind_Done _ _ _ _ _ (fields_loop_built lib env name fs h)).
  destruct (built lib env fs) as [xs [e|]]; cbn [fst snd]; [reflexivity|].
  cbn [Value_Elem content]. rewrite !bind_ret_l. cbv beta.
  cbn [Value_Set content]. unfold bind, deref, ret, assign.
  rewrite load_fresh. cbn [sub_load].
  destruct (store _ a _); reflexivity.
Qed.


(** The same for a variable that can be read: no panic. *)
Lemma Decode_struct_valid (name : string) (fs : list reflect.StructField)
    (a : addr) (h : heap) (old : value) :
  load h a = Some old ->
  exists h_a,
    store h a (VStruct (built lib env fs).1) = Some h_a /\
    Decode lib env
      (Some (reflect.TPtr (reflect.TStruct name fs), VPtr (Some a))) h
    = match (built lib env fs).2 with
      | Some e => Done (Some e) (h ++ [VStruct (built lib env fs).1])
      | None => Done None (h_a ++ [VStruct (built lib env fs).1])
      end.
Proof.
  intros Hold.
  destruct (store_some h a (VStruct (built lib env fs).1) old Hold) as [h_a Hst].
  exists h_a. split; [exact Hst|].
  rewrite Decode_struct_eq.
  destruct (built lib env fs) as [xs [e|]]; cbn [fst snd] in *; [reflexivity|].
  rewrite store_app_l by (by eapply load_in_heap). by rewrite Hst.
Qed.

(** After a success the destination holds the record built. *)
Lemma Decode_struct_success (name : string) (fs : list reflect.StructField)
    (a : addr) (h h' : heap) :
  Decode lib env
    (Some (reflect.TPtr (reflect.TStruct name fs), VPtr (Some a))) h
  = Done None h' ->
  (built lib env fs).2 = None /\
  store (h ++ [VStruct (built lib env fs).1]) a (VStruct (built lib env fs).1)
  = Some h' /\
  load h' a = Some (VStruct (built lib env fs).1).
Proof.
  rewrite Decode_struct_eq.
  destruct (built lib env fs) as [xs [e|]]; cbn [fst snd]; [discriminate|].
  destruct (store _ a _) as [h2|] eqn:Hst; [|discriminate].
  intros [= <-]. repeat split. by eapply store_load.
Qed.

(** [Decode] on a pointer to an unset pointer to a struct, in one
    equation. *)
Lemma Decode_nil_inner_eq (name : string) (fs : list reflect.StructField)
    (a0 : addr) (h : heap) :
  let T := reflect.TStruct name fs in
  load h a0 = Some (VPtr None) ->
  Decode lib env (Some (reflect.TPtr (reflect.TPtr T), VPtr (Some a0))) h
  = match store (h ++ [zero T]) a0 (VPtr (Some (length h, []))) with
    | None => Panic "invalid address"
    | Some h1 =>
        match built lib env fs with
        | (xs, Some e) => Done (Some e) (h1 ++ [VStruct xs])
        | (xs, None) =>
            match store (h1 ++ [VStruct xs]) (length h, []) (VStruct xs) with
            | Some h' => Done None h'
            | None => Panic "invalid address"
            end
        end
    end.
Proof.
  intros T Hnil. subst T.
  unfold Decode.
  cbn [reflect_ValueOf Value_Kind reflect.Type_Kind reflect.Kind_eqb negb
       reflect_TypeOf].
  unfold bind at 1. rewrite (deref_loop_nil_inner name fs a0 h Hnil).
  destruct (store _ a0 _) as [h1|]; [|reflexivity].
  cbn [reflect.Type_Kind reflect.Kind_eqb negb].
  rewrite (bind_Done _ _ _ _ _ (reflect_New_Done (reflect.TStruct name fs) h1)).
  cbn [reflect.Type_fields].
  rewrite (bind_Done _ _ _ _ _ (fields_loop_built lib env name fs h1)).
  destruct (built lib env fs) as [xs [e|]]; cbn [fst snd]; [reflexivity|].
  cbn [Value_Elem content]. rewrite !bind_ret_l. cbv beta.
  cbn [Value_Set content]. unfold bind, deref, ret, assign.
  rewrite load_fresh. cbn [sub_load].
  destruct (store _ _ _); reflexivity.
Qed.

End DecodeStruct.

Section DecodeStructProps.

Variable lib : Lib.
Variable env : environ.

Lemma skipped_when_unset (f : reflect.StructField) :
  Forall (fun k => env !! k = None) (getFieldTags f) -> skipped env f = true.
Proof.
  intros H. unfold skipped, looked_up.
  rewrite (probe_none_present env _ EmptyString H). apply orb_true_r.
Qed.

Lemma build_all_skipped (fs : list reflect.StructField) :
  Forall (fun f => skipped env f = true) fs ->
  forall i xs, build lib env fs i xs = (xs, None).
Proof.
  induction 1 as [|f rest Hf _ IH]; intros i xs; [reflexivity|].
  cbn [build]. rewrite Hf. apply IH.
Qed.

(** A field that fails after fields that do not is the first failure. *)
Lemma first_failure_at (pre post : list reflect.StructField)
    (f : reflect.StructField) :
  Forall (fun g => skipped env g = true \/
                   (converted lib (reflect.Typ g) (looked_up env g)).2 = None) pre ->
  skipped env f = false ->
  (converted lib (reflect.Typ f) (looked_up env f)).2 <> None ->
  first_failure lib env (pre ++ f :: post) = Some f.
Proof.
  intros Hpre Hs Hc. induction Hpre as [|g pre Hg _ IH]; cbn [app first_failure].
  - rewrite Hs. by destruct (converted _ _ _).2.
  - destruct (skipped env g) eqn:Hsg; [exact IH|].
    destruct Hg as [Hg|Hg]; [congruence|]. rewrite Hg. exact IH.
Qed.

(** A field that is not passed by and fails makes some field fail. *)
Lemma first_failure_exists (fs : list reflect.StructField)
    (f : reflect.StructField) :
  f ∈ fs -> skipped env f = false ->
  (converted lib (reflect.Typ f) (looked_up env f)).2 <> None ->
  first_failure lib env fs <> None.
Proof.
  intros Hin Hs Hc. induction fs as [|g rest IH]; [by apply elem_of_nil in Hin|].
  cbn [first_failure]. destruct (skipped env g) eqn:Hsg.
  - apply elem_of_cons in Hin as [->|Hin]; [congruence|by apply IH].
  - destruct (converted lib (reflect.Typ g) (looked_up env g)).2 eqn:Hcg;
      [discriminate|].
    apply elem_of_cons in Hin as [->|Hin]; [congruence|by apply IH].
Qed.

End DecodeStructProps.

Section Taxonomy.

Variable lib : Lib.
Variable env : environ.

Lemma first_failure_Some (fs : list reflect.StructField) (f : reflect.StructField) :
  first_failure lib env fs = Some f ->
  f ∈ fs /\ skipped env f = false /\
  (converted lib (reflect.Typ f) (looked_up env f)).2 <> None.
Proof.
  induction fs as [|g rest IH]; [discriminate|]. cbn [first_failure].
  destruct (skipped env g) eqn:Hs.
  - intros H. destruct (IH H) as (? & ? & ?). repeat split; auto. by right.
  - destruct (converted lib (reflect.Typ g) (looked_up env g)).2 eqn:Hc.
    + intros [= <-]. repeat split; [by left|exact Hs|]. by rewrite Hc.
    + intros H. destruct (IH H) as (? & ? & ?). repeat split; auto. by right.
Qed.

(** The error of [Decode], by the type that the argument leads to. *)
Lemma Decode_result (te : reflect.type) (x : value) (h : heap)
    (r : option error) (h' : heap) :
  Decode lib env (Some (reflect.TPtr te, x)) h = Done r h' ->
  match Type_deref te with
  | reflect.TStruct name fs => r = (built lib env fs).2
  | reflect.TTime => r = None
  | T => r = Some (ofDecodeError (newDecodeError
           ("cannot decode into value of type: " ++ Type_String lib T)
           EmptyString None))
  end.
Proof.
  intros Hrun.
  change (Decode lib env (Some (reflect.TPtr te, x)) h)
    with ((r <- deref_loop (reflect.TPtr te) (Direct (reflect.TPtr te) x) ;;
           let '(t, val) := r in
           if negb (reflect.Kind_eqb (reflect.Type_Kind t) reflect.Struct)
           then ret (Some (ofDecodeError (newDecodeError
                  ("cannot decode into value of type: " ++ Type_String lib t)
                  EmptyString None)))
           else
             newVal <- reflect_New t ;;
             err <- fields_loop lib env newVal (reflect.Type_fields t) 0 ;;
             match err with
             | Some _ => ret err
             | None => nv <- Value_Elem newVal ;; Value_Set val nv ;;; ret None
             end) h) in Hrun.
  apply bind_inv in Hrun as ([T val] & h1 & Hwalk & Hrun).
  destruct (deref_loop_Indirect te (Direct (reflect.TPtr te) x) h T val h1
              eq_refl Hwalk) as [<- [a ->]].
  destruct T as [b|u|name fs| |n e|e|k e|e| |];
    try (unfold ret in Hrun; cbn in Hrun; by injection Hrun as <- _).
  - destruct b; unfold ret in Hrun; cbn in Hrun; by injection Hrun as <- _.
  - cbn [reflect.Type_Kind reflect.Kind_eqb negb] in Hrun.
    rewrite (bind_Done _ _ _ _ _ (reflect_New_Done _ h1)) in Hrun.
    cbn [reflect.Type_fields] in Hrun.
    rewrite (bind_Done _ _ _ _ _ (fields_loop_built lib env name fs h1)) in Hrun.
    destruct (built lib env fs).2 as [e|].
    + unfold ret in Hrun. by injection Hrun as <- _.
    + apply bind_inv in Hrun as (nv & h2 & _ & Hrun).
      apply bind_inv in Hrun as (u & h3 & _ & Hrun).
      unfold ret in Hrun. by injection Hrun as <- _.
  - cbn [reflect.Type_Kind reflect.Kind_eqb negb] in Hrun.
    rewrite (bind_Done _ _ _ _ _ (reflect_New_Done _ h1)) in Hrun.
    cbn in Hrun. unfold bind, ret in Hrun.
    destruct (deref _ _) as [c h2|]; [|discriminate].
    destruct (assign a c h2); [|discriminate]. by injection Hrun as <- _.
Qed.

(** The three forms of the errors of [Decode]. *)
Lemma Decode_error_forms (v : iface) (h : heap) (e : error) (h' : heap) :
  Decode lib env v h = Done (Some e) h' ->
  (Value_Kind (reflect_ValueOf v) <> reflect.Ptr /\ h' = h /\
   e = ofDecodeError (newDecodeError "must decode to pointer" EmptyString None)) \/
  (exists te x,
     v = Some (reflect.TPtr te, x) /\
     reflect.Type_Kind (Type_deref te) <> reflect.Struct /\
     e = ofDecodeError (newDecodeError
           ("cannot decode into value of type: "
            ++ Type_String lib (Type_deref te)) EmptyString None)) \/
  (exists te x f cause,
     v = Some (reflect.TPtr te, x) /\
     f ∈ reflect.Type_fields (Type_deref te) /\
     skipped env f = false /\
     (converted lib (reflect.Typ f) (looked_up env f)).2 = Some cause /\
     e = field_error env f (Some cause)).
Proof.
  intros Hrun.
  destruct v as [[t x]|].
  2: { left. cbn in Hrun. injection Hrun as <- <-. by repeat split. }
  destruct t as [b|te|name fs| | | | | | |];
    try (left; cbn in Hrun; injection Hrun as <- <-; by repeat split).
  { destruct b; left; cbn in Hrun; injection Hrun as <- <-; by repeat split. }
  right. pose proof (Decode_result te x h _ _ Hrun) as Hr.
  destruct (Type_deref te) as [b|u|name fs| |n e0|e0|k e0|e0| |] eqn:HT;
    try (left; exists te, x; rewrite HT;
         repeat split; [discriminate|by injection Hr as ->]).
  - left. exists te, x. rewrite HT. split; [reflexivity|].
    split; [by destruct b|by injection Hr as ->].
  - right. unfold built in Hr. rewrite (build_error lib env fs 0) in Hr.
    destruct (first_failure lib env fs) as [f|] eqn:Hff; [|discriminate].
    destruct (first_failure_Some fs f Hff) as (Hin & Hs & Hc).
    destruct (converted lib (reflect.Typ f) (looked_up env f)).2 as [cause|] eqn:Hcv;
      [|congruence].
    exists te, x, f, cause. rewrite HT. cbn [reflect.Type_fields].
    repeat split; try assumption. by injection Hr as ->.
  - discriminate Hr.
Qed.

End Taxonomy.

(* ===================================================================== *)
(** * The keys of a field and the converter: lemmas *)
(* ===================================================================== *)

Section KeysMore.

Lemma Split_comma_free (k : string) :
  comma_free k = true -> strings.Split k "," = [k].
Proof.
  induction k as [|c r IH]; [reflexivity|].
  cbn [comma_free strings.Split]. intros H.
  apply andb_true_iff in H as [Hc Hr].
  destruct (Ascii.eqb c ","); [discriminate|].
  by rewrite (IH Hr).
Qed.

Lemma Split_comma_app (k r : string) :
  comma_free k = true ->
  strings.Split (k ++ String "," r) "," = k :: strings.Split r ",".
Proof.
  induction k as [|c k IH]; intros H.
  - reflexivity.
  - cbn [comma_free] in H. apply andb_true_iff in H as [Hc Hk].
    change (String c k ++ String "," r)%string
      with (String c (k ++ String "," r)).
    cbn [strings.Split]. destruct (Ascii.eqb c ","); [discriminate|].
    by rewrite (IH Hk).
Qed.

Lemma Split_comma_join (keys : list string) :
  keys <> [] -> Forall (fun k => comma_free k = true) keys ->
  strings.Split (comma_join keys) "," = keys.
Proof.
  induction keys as [|k rest IH]; [congruence|]. intros _ Hfree.
  apply Forall_cons in Hfree as [Hk Hrest].
  destruct rest as [|k' rest'].
  - by apply Split_comma_free.
  - change (comma_join (k :: k' :: rest'))
      with (k ++ String "," (comma_join (k' :: rest')))%string.
    rewrite Split_comma_app by exact Hk. f_equal. by apply IH.
Qed.

Lemma Split_pieces_comma_free (s : string) :
  Forall (fun k => comma_free k = true) (strings.Split s ",").
Proof.
  induction s as [|c r IH]; [by repeat constructor|].
  cbn [strings.Split]. destruct (Ascii.eqb c ",") eqn:Hc.
  - by constructor.
  - destruct (strings.Split r ",") as [|x xs].
    + constructor; [|constructor]. cbn. by rewrite Hc.
    + apply Forall_cons in IH as [Hx Hxs]. constructor; [|exact Hxs].
      cbn. by rewrite Hc, Hx.
Qed.

Lemma first_segment_comma_free (s : string) :
  comma_free (first_segment s) = true.
Proof.
  unfold first_segment. pose proof (Split_pieces_comma_free s) as H.
  destruct (strings.Split s ","); [reflexivity|].
  by apply Forall_cons in H as [H _].
Qed.


(** The probe reads the keys it is given and no other. *)
Lemma probe_env_ext (env1 env2 : environ) (tags : list string) (s tag : string) :
  (forall k, k ∈ tags -> env1 !! k = env2 !! k) ->
  probe env1 tags s tag = probe env2 tags s tag.
Proof.
  revert s tag. induction tags as [|k rest IH]; intros s tag Heq; [reflexivity|].
  cbn [probe]. unfold LookupEnv. rewrite <- (Heq k) by apply list_elem_of_here.
  destruct (env1 !! k); [reflexivity|].
  apply IH. intros k' Hk'. apply Heq. by apply list_elem_of_further.
Qed.

End KeysMore.

Section Converter.

Variable lib : Lib.

(** The converter reads a pointer through its handle: a handle that holds
    the pointer and one on a variable that holds it are treated alike. *)
Lemma decodeValue_at_handle (s : string) (T : reflect.type) (a b : addr)
    (h : heap) :
  load h a = Some (VPtr (Some b)) ->
  decodeValue_at lib s (reflect.TPtr T) (Indirect (reflect.TPtr T) a) h
  = decodeValue_at lib s (reflect.TPtr T)
      (Direct (reflect.TPtr T) (VPtr (Some b))) h.
Proof.
  intros Ha.
  set (v := Indirect (reflect.TPtr T) a).
  set (v' := Direct (reflect.TPtr T) (VPtr (Some b))).
  assert (HE : Value_Elem v h = Done (Indirect T b) h).
  { cbn. unfold bind, deref. by rewrite Ha. }
  assert (HI : Value_Interface v h = Done (Some (reflect.TPtr T, VPtr (Some b))) h).
  { cbn. unfold bind, deref. by rewrite Ha. }
  assert (HN : Value_IsNil v h = Done false h).
  { cbn. unfold bind, deref. by rewrite Ha. }
  assert (HE' : Value_Elem v' h = Done (Indirect T b) h) by reflexivity.
  assert (HI' : Value_Interface v' h
                = Done (Some (reflect.TPtr T, VPtr (Some b))) h) by reflexivity.
  assert (HN' : Value_IsNil v' h = Done false h) by reflexivity.
  clearbody v v'.
  cbn [decodeValue_at].
  rewrite (bind_Done _ _ _ _ _ HE), (bind_Done _ _ _ _ _ HE').
  cbn [Value_Kind].
  destruct (reflect.Type_Kind T); try reflexivity.
  - by rewrite (bind_Done _ _ _ _ _ HI), (bind_Done _ _ _ _ _ HI').
  - by rewrite (bind_Done _ _ _ _ _ HI), (bind_Done _ _ _ _ _ HI').
  - rewrite (bind_Done _ _ _ _ _ HN), (bind_Done _ _ _ _ _ HN').
    rewrite !bind_ret_l.
    by rewrite (bind_Done _ _ _ _ _ HE), (bind_Done _ _ _ _ _ HE').
  - by rewrite (bind_Done _ _ _ _ _ HI), (bind_Done _ _ _ _ _ HI').
  - by rewrite (bind_Done _ _ _ _ _ HI), (bind_Done _ _ _ _ _ HI').
Qed.

End Converter.

(* ===================================================================== *)
(** * Further properties of [Decode] *)
(* ===================================================================== *)

Import Examples MoreExamples.

(** X1: on a pointer to a struct variable [Decode] never panics.  It
    returns the error of the first failing field, with the caller's memory
    as it was, or succeeds and stores the record that the fields give, one
    after the other, from the zero value. *)
Theorem X1_Decode_struct_total (lib : Lib) (env : environ) (name : string)
    (fs : list reflect.StructField) (a : addr) (h : heap) (old : value) :
  load h a = Some old ->
  exists h_a,
    store h a (VStruct (built lib env fs).1) = Some h_a /\
    Decode lib env
      (Some (reflect.TPtr (reflect.TStruct name fs), VPtr (Some a))) h
    = match (built lib env fs).2 with
      | Some e => Done (Some e) (h ++ [VStruct (built lib env fs).1])
      | None => Done None (h_a ++ [VStruct (built lib env fs).1])
      end.
Proof. apply Decode_struct_valid. Qed.

Lemma X1_witness :
  exists h_a,
    store config_heap (0, []) (VStruct (built RefLib.lib env_good config_fields).1)
    = Some h_a /\
    Decode RefLib.lib env_good (ptr_to Config 0) config_heap
    = match (built RefLib.lib env_good config_fields).2 with
      | Some e =>
          Done (Some e)
            (config_heap ++ [VStruct (built RefLib.lib env_good config_fields).1])
      | None =>
          Done None (h_a ++ [VStruct (built RefLib.lib env_good config_fields).1])
      end.
Proof.
  apply (X1_Decode_struct_total RefLib.lib env_good "Config" config_fields (0, [])
           config_heap (VStruct [VInt 5; VString "old"; VInt 7])).
  reflexivity.
Defined.

(** X2: when no candidate key of any field is set, [Decode] succeeds and
    the record is the zero value of its type. *)
Theorem X2_Decode_all_unset (lib : Lib) (env : environ) (name : string)
    (fs : list reflect.StructField) (a : addr) (h : heap) (old : value) :
  load h a = Some old ->
  Forall (fun f => Forall (fun k => env !! k = None) (getFieldTags f)) fs ->
  exists h_a,
    store h a (zero (reflect.TStruct name fs)) = Some h_a /\
    Decode lib env
      (Some (reflect.TPtr (reflect.TStruct name fs), VPtr (Some a))) h
    = Done None (h_a ++ [zero (reflect.TStruct name fs)]).
Proof.
  intros Hold Hunset.
  destruct (Decode_struct_valid lib env name fs a h old Hold) as (h_a & Hst & Hrun).
  assert (Hb : built lib env fs = (map (fun f => zero (reflect.Typ f)) fs, None)).
  { apply build_all_skipped. eapply Forall_impl; [exact Hunset|].
    intros f Hf. by apply skipped_when_unset. }
  rewrite Hb in Hst, Hrun. eauto.
Qed.

Lemma X2_witness :
  exists h_a,
    store config_heap (0, []) (zero Config) = Some h_a /\
    Decode RefLib.lib ∅ (ptr_to Config 0) config_heap
    = Done None (h_a ++ [zero Config]).
Proof.
  apply (X2_Decode_all_unset RefLib.lib ∅ "Config" config_fields (0, [])
           config_heap (VStruct [VInt 5; VString "old"; VInt 7])).
  - reflexivity.
  - repeat constructor.
Defined.

(** X3: after a success, each field that was not passed by holds the
    converted value of the variable found for it, and that conversion did
    not fail; each field passed by holds its zero value. *)
Theorem X3_success_fields (lib : Lib) (env : environ) (name : string)
    (fs : list reflect.StructField) (a : addr) (h h' : heap) :
  Decode lib env
    (Some (reflect.TPtr (reflect.TStruct name fs), VPtr (Some a))) h
  = Done None h' ->
  exists xs,
    load h' a = Some (VStruct xs) /\
    forall j f, fs !! j = Some f ->
      xs !! j = Some (if skipped env f then zero (reflect.Typ f)
                      else (converted lib (reflect.Typ f) (looked_up env f)).1) /\
      (skipped env f = false ->
       (converted lib (reflect.Typ f) (looked_up env f)).2 = None).
Proof.
  intros Hrun.
  destruct (Decode_struct_success lib env name fs a h h' Hrun) as (Hok & _ & Hload).
  exists (built lib env fs).1. split; [exact Hload|].
  intros j f Hj.
  destruct (build_success lib env fs 0 (map (fun f => zero (reflect.Typ f)) fs)
              ltac:(rewrite length_map; lia) Hok j f Hj) as [H1 H2].
  split; [|exact H2]. cbn [Nat.add] in H1. unfold built. rewrite H1.
  destruct (skipped env f); [|reflexivity]. by apply zero_struct_fields.
Qed.

Lemma X3_witness :
  exists xs,
    load [VStruct [VInt 80; VString "db"; VInt 0];
          VStruct [VInt 80; VString "db"; VInt 0]] (0, []) = Some (VStruct xs) /\
    forall j f, config_fields !! j = Some f ->
      xs !! j = Some (if skipped env_good f then zero (reflect.Typ f)
                      else (converted RefLib.lib (reflect.Typ f)
                              (looked_up env_good f)).1) /\
      (skipped env_good f = false ->
       (converted RefLib.lib (reflect.Typ f) (looked_up env_good f)).2 = None).
Proof.
  apply (X3_success_fields RefLib.lib env_good "Config" config_fields (0, [])
           config_heap).
  vm_compute. reflexivity.
Defined.

(** X4: after a success, every exported field of type string holds
    exactly the value that the probe of the environment found for it (the
    empty string when no key exists). *)
Theorem X4_string_fields (lib : Lib) (env : environ) (name : string)
    (fs : list reflect.StructField) (a : addr) (h h' : heap) :
  Decode lib env
    (Some (reflect.TPtr (reflect.TStruct name fs), VPtr (Some a))) h
  = Done None h' ->
  exists xs,
    load h' a = Some (VStruct xs) /\
    forall j f, fs !! j = Some f ->
      reflect.PkgPath f = "" ->
      reflect.Typ f = reflect.TBasic reflect.Tstring ->
      xs !! j = Some (VString (looked_up env f)).
Proof.
  intros Hrun.
  destruct (Decode_struct_success lib env name fs a h h' Hrun) as (Hok & _ & Hload).
  exists (built lib env fs).1. split; [exact Hload|].
  intros j f Hj Hexp Hty.
  destruct (build_success lib env fs 0 (map (fun f => zero (reflect.Typ f)) fs)
              ltac:(rewrite length_map; lia) Hok j f Hj) as [H1 _].
  cbn [Nat.add] in H1. unfold built. rewrite H1.
  destruct (skipped env f) eqn:Hs.
  - rewrite (zero_struct_fields fs j f Hj), Hty. cbn [zero].
    unfold skipped in Hs. rewrite Hexp in Hs. cbn in Hs.
    by destruct (looked_up env f).
  - rewrite Hty. reflexivity.
Qed.

Lemma X4_witness :
  exists xs,
    load [VStruct [VInt 80; VString "db"; VInt 0];
          VStruct [VInt 80; VString "db"; VInt 0]] (0, []) = Some (VStruct xs) /\
    forall j f, config_fields !! j = Some f ->
      reflect.PkgPath f = "" ->
      reflect.Typ f = reflect.TBasic reflect.Tstring ->
      xs !! j = Some (VString (looked_up env_good f)).
Proof.
  apply (X4_string_fields RefLib.lib env_good "Config" config_fields (0, [])
           config_heap).
  vm_compute. reflexivity.
Defined.

(** X5: the first field, in the order of declaration, that is not passed
    by and whose conversion fails decides the result: [Decode] returns its
    error (with its key and the cause), whatever the fields after it, and
    the caller's memory is as before. *)
Theorem X5_first_failure_decides (lib : Lib) (env : environ) (name : string)
    (pre post : list reflect.StructField) (f : reflect.StructField)
    (cause : error) (a : addr) (h : heap) :
  Forall (fun g => skipped env g = true \/
                   (converted lib (reflect.Typ g) (looked_up env g)).2 = None) pre ->
  skipped env f = false ->
  (converted lib (reflect.Typ f) (looked_up env f)).2 = Some cause ->
  exists xs,
    Decode lib env
      (Some (reflect.TPtr (reflect.TStruct name (pre ++ f :: post)),
             VPtr (Some a))) h
    = Done (Some (field_error env f (Some cause))) (h ++ [VStruct xs]).
Proof.
  intros Hpre Hs Hc. rewrite Decode_struct_eq.
  pose proof (build_error lib env (pre ++ f :: post) 0
                (map (fun f => zero (reflect.Typ f)) (pre ++ f :: post))) as He.
  rewrite (first_failure_at lib env pre post f Hpre Hs) in He by (by rewrite Hc).
  rewrite Hc in He. fold (built lib env (pre ++ f :: post)) in He.
  destruct (built lib env (pre ++ f :: post)) as [xs e]. cbn [snd] in He.
  subst e. eauto.
Qed.

Lemma X5_witness :
  exists xs,
    Decode RefLib.lib env_bad_port (ptr_to Config 0) config_heap
    = Done (Some (field_error env_bad_port
                    (reflect.mkField "Port" "" [("mpe", "PORT")]
                       (reflect.TBasic reflect.Tint8))
                    (Some (NumError "ParseInt" "abc" ErrSyntax))))
        (config_heap ++ [VStruct xs]).
Proof.
  apply (X5_first_failure_decides RefLib.lib env_bad_port "Config" []
           [reflect.mkField "Name" "" [("mpe", "NAME")] (reflect.TBasic reflect.Tstring);
            reflect.mkField "hidden" "main" [] (reflect.TBasic reflect.Tint)]
           (reflect.mkField "Port" "" [("mpe", "PORT")]
              (reflect.TBasic reflect.Tint8))
           (NumError "ParseInt" "abc" ErrSyntax) (0, []) config_heap).
  - constructor.
  - reflexivity.
  - reflexivity.
Defined.

(** X6: a field of pointer type is never decoded.  On a pointer to a
    variable that holds a nil pointer the converter allocates nothing and
    returns the error "unsupported field kind: invalid"; and since the
    fields of the new record are nil, [Decode] returns an error as soon as
    a non-empty variable is found for an exported field of pointer type. *)
Theorem X6_pointer_field_fails (lib : Lib) (env : environ) (name : string)
    (fs : list reflect.StructField) (f : reflect.StructField)
    (u : reflect.type) (a : addr) (h : heap) :
  (forall s a0 h0,
     load h0 a0 = Some (VPtr None) ->
     decodeValue lib s
       (Direct (reflect.TPtr (reflect.TPtr u)) (VPtr (Some a0))) h0
     = Done (Some (Errorf "unsupported field kind: invalid")) h0) /\
  (f ∈ fs ->
   reflect.Typ f = reflect.TPtr u ->
   skipped env f = false ->
   exists e xs,
     Decode lib env
       (Some (reflect.TPtr (reflect.TStruct name fs), VPtr (Some a))) h
     = Done (Some e) (h ++ [VStruct xs])).
Proof.
  split.
  - intros s a0 h0 Hnil. unfold decodeValue.
    set (v := Direct (reflect.TPtr (reflect.TPtr u)) (VPtr (Some a0))).
    assert (HE : Value_Elem v h0 = Done (Indirect (reflect.TPtr u) a0) h0)
      by reflexivity.
    assert (HN : Value_IsNil v h0 = Done false h0) by reflexivity.
    assert (HZ : Value_Elem (Indirect (reflect.TPtr u) a0) h0 = Done Zero h0).
    { cbn. unfold bind, deref. by rewrite Hnil. }
    clearbody v. cbn [decodeValue_at].
    rewrite (bind_Done _ _ _ _ _ HE). cbn [Value_Kind reflect.Type_Kind].
    rewrite (bind_Done _ _ _ _ _ HN). rewrite !bind_ret_l.
    rewrite (bind_Done _ _ _ _ _ HE).
    cbn [decodeValue_at]. by rewrite (bind_Done _ _ _ _ _ HZ).
  - intros Hin Hty Hs.
    assert (Hc : converted lib (reflect.Typ f) (looked_up env f)
                 = (VPtr None, Some (Errorf "unsupported field kind: invalid")))
      by (by rewrite Hty).
    rewrite Decode_struct_eq.
    pose proof (build_error lib env fs 0 (map (fun f => zero (reflect.Typ f)) fs))
      as He.
    pose proof (first_failure_exists lib env fs f Hin Hs) as Hff.
    rewrite Hc in Hff. specialize (Hff ltac:(discriminate)).
    fold (built lib env fs) in He.
    destruct (first_failure lib env fs) as [g|]; [|congruence].
    destruct (built lib env fs) as [xs e]. cbn [snd] in He. subst e. eauto.
Qed.

Lemma X6_witness :
  decodeValue RefLib.lib "5"
    (Direct (reflect.TPtr (reflect.TPtr (reflect.TBasic reflect.Tint)))
       (VPtr (Some (0, [1]))))
    with_pointer_heap
  = Done (Some (Errorf "unsupported field kind: invalid")) with_pointer_heap /\
  exists e xs,
    Decode RefLib.lib env_limit (ptr_to WithPointer 0) with_pointer_heap
    = Done (Some e) (with_pointer_heap ++ [VStruct xs]).
Proof.
  pose proof (X6_pointer_field_fails RefLib.lib env_limit "WithPointer"
                (reflect.Type_fields WithPointer)
                (reflect.mkField "Limit" "" [("mpe", "LIMIT")]
                   (reflect.TPtr (reflect.TBasic reflect.Tint)))
                (reflect.TBasic reflect.Tint) (0, []) with_pointer_heap)
    as [Hconv Hrun].
  split.
  - apply Hconv. reflexivity.
  - apply Hrun.
    + cbn. apply list_elem_of_further, list_elem_of_here.
    + reflexivity.
    + reflexivity.
Defined.

(** X7: the result of [Decode] depends on the environment and the type
    alone, not on what the destination or the rest of the memory holds:
    from another memory and destination it returns the same error, or
    succeeds with the same record.  In particular decoding a second time
    leaves the record as it is. *)
Theorem X7_result_independent_of_memory (lib : Lib) (env : environ)
    (name : string) (fs : list reflect.StructField)
    (a : addr) (h h' : heap) (r : option error)
    (a2 : addr) (h2 : heap) (old2 : value) :
  Decode lib env
    (Some (reflect.TPtr (reflect.TStruct name fs), VPtr (Some a))) h
  = Done r h' ->
  load h2 a2 = Some old2 ->
  exists h2',
    Decode lib env
      (Some (reflect.TPtr (reflect.TStruct name fs), VPtr (Some a2))) h2
    = Done r h2' /\
    (r = None -> load h2' a2 = load h' a).
Proof.
  intros Hrun Hold2.
  destruct (Decode_struct_valid lib env name fs a2 h2 old2 Hold2)
    as (h_a & Hst & Hrun2).
  rewrite Decode_struct_eq in Hrun.
  destruct (built lib env fs) as [xs [e|]] eqn:Hb; cbn [fst snd] in *.
  - injection Hrun as <- <-. eexists. split; [exact Hrun2|discriminate].
  - destruct (store _ a _) as [h3|] eqn:Hst1; [|discriminate].
    injection Hrun as <- <-. eexists. split; [exact Hrun2|]. intros _.
    rewrite (store_load _ _ _ _ Hst1).
    rewrite load_app_l.
    + by eapply store_load.
    + rewrite (store_length _ _ _ _ Hst). by eapply load_in_heap.
Qed.

Lemma X7_witness :
  exists h2',
    Decode RefLib.lib env_good (ptr_to Config 0) decoded_heap = Done None h2' /\
    (@None error = None -> load h2' (0, []) = load decoded_heap (0, [])).
Proof.
  apply (X7_result_independent_of_memory RefLib.lib env_good "Config"
           config_fields (0, []) config_heap decoded_heap None (0, []) decoded_heap
           (VStruct [VInt 80; VString "db"; VInt 0])).
  - vm_compute. reflexivity.
  - reflexivity.
Defined.

(** X8: a call of [Decode] on a pointer to a struct allocates one cell,
    and changes no cell that existed before other than the one of the
    destination. *)
Theorem X8_frame (lib : Lib) (env : environ) (name : string)
    (fs : list reflect.StructField) (a : addr) (h h' : heap)
    (r : option error) :
  Decode lib env
    (Some (reflect.TPtr (reflect.TStruct name fs), VPtr (Some a))) h
  = Done r h' ->
  length h' = S (length h) /\
  forall l, l < length h -> l <> a.1 -> h' !! l = h !! l.
Proof.
  rewrite Decode_struct_eq.
  destruct (built lib env fs) as [xs [e|]].
  - intros [= <- <-]. split.
    + rewrite length_app. cbn. lia.
    + intros l Hl _. by apply lookup_app_l.
  - destruct (store _ a _) as [h3|] eqn:Hst; [|discriminate].
    intros [= <- <-]. split.
    + rewrite (store_length _ _ _ _ Hst), length_app. cbn. lia.
    + intros l Hl Hne. rewrite (store_other_cell _ _ _ _ l Hst Hne).
      by apply lookup_app_l.
Qed.

Lemma X8_witness :
  length [VString "other"; VStruct [VInt 80; VString "db"; VInt 0]; VInt 9;
          VStruct [VInt 80; VString "db"; VInt 0]] = S (length crowded_heap) /\
  forall l, l < length crowded_heap -> l <> (1, @nil nat).1 ->
    [VString "other"; VStruct [VInt 80; VString "db"; VInt 0]; VInt 9;
     VStruct [VInt 80; VString "db"; VInt 0]] !! l = crowded_heap !! l.
Proof.
  apply (X8_frame RefLib.lib env_good "Config" config_fields (1, []) crowded_heap _ None).
  vm_compute. reflexivity.
Defined.

(** X9: on a pointer to an unset pointer to a struct, [Decode] allocates
    the record in place: the inner pointer is set to a new cell, and on
    success that cell holds the record built (on error, the zero value). *)
Theorem X9_nil_inner_pointer (lib : Lib) (env : environ) (name : string)
    (fs : list reflect.StructField) (a0 : addr) (h : heap) :
  let T := reflect.TStruct name fs in
  load h a0 = Some (VPtr None) ->
  exists h_a,
    store h a0 (VPtr (Some (length h, []))) = Some h_a /\
    Decode lib env (Some (reflect.TPtr (reflect.TPtr T), VPtr (Some a0))) h
    = match (built lib env fs).2 with
      | Some e => Done (Some e) (h_a ++ [zero T; VStruct (built lib env fs).1])
      | None =>
          Done None (h_a ++ [VStruct (built lib env fs).1;
                             VStruct (built lib env fs).1])
      end.
Proof.
  intros T Hnil. subst T.
  destruct (store_some h a0 (VPtr (Some (length h, []))) _ Hnil) as [h_a Hst].
  exists h_a. split; [exact Hst|].
  rewrite (Decode_nil_inner_eq lib env name fs a0 h Hnil).
  rewrite store_app_l by (by eapply load_in_heap). rewrite Hst.
  destruct (built lib env fs) as [xs [e|]]; cbn [fst snd].
  - by rewrite <- app_assoc.
  - rewrite <- (store_length _ _ _ _ Hst).
    rewrite <- app_assoc. cbn [app].
    rewrite store_middle. cbn [sub_store]. reflexivity.
Qed.

Lemma X9_witness :
  exists h_a,
    store nil_pointer_heap (0, []) (VPtr (Some (length nil_pointer_heap, []))) = Some h_a /\
    Decode RefLib.lib env_good
      (Some (reflect.TPtr (reflect.TPtr Config), VPtr (Some (0, [])))) nil_pointer_heap
    = match (built RefLib.lib env_good config_fields).2 with
      | Some e =>
          Done (Some e)
            (h_a ++ [zero Config;
                     VStruct (built RefLib.lib env_good config_fields).1])
      | None =>
          Done None
            (h_a ++ [VStruct (built RefLib.lib env_good config_fields).1;
                     VStruct (built RefLib.lib env_good config_fields).1])
      end.
Proof.
  apply (X9_nil_inner_pointer RefLib.lib env_good "Config" config_fields (0, [])
           nil_pointer_heap).
  reflexivity.
Defined.

(** X10: every error that [Decode] returns is a [DecodeError] of one of
    three forms: "must decode to pointer" (no field, no cause; the
    argument is no pointer and the memory is untouched), "cannot decode
    into value of type" (no field, no cause; the argument does not lead to
    a struct), or "unable to decode value in field" with the key found for
    a field that was not passed by and the error of its conversion as the
    cause. *)
Theorem X10_error_forms (lib : Lib) (env : environ) (v : iface) (h : heap)
    (e : error) (h' : heap) :
  Decode lib env v h = Done (Some e) h' ->
  exists d, e = ofDecodeError d /\
    ((Description d = "must decode to pointer" /\ Field d = "" /\ Err d = None /\
      Value_Kind (reflect_ValueOf v) <> reflect.Ptr /\ h' = h) \/
     (exists te x,
        v = Some (reflect.TPtr te, x) /\
        reflect.Type_Kind (Type_deref te) <> reflect.Struct /\
        Description d = ("cannot decode into value of type: "
                         ++ Type_String lib (Type_deref te))%string /\
        Field d = "" /\ Err d = None) \/
     (exists te x f cause,
        v = Some (reflect.TPtr te, x) /\
        f ∈ reflect.Type_fields (Type_deref te) /\
        skipped env f = false /\
        (converted lib (reflect.Typ f) (looked_up env f)).2 = Some cause /\
        Description d
        = ("unable to decode value in field '" ++ Field d ++ "'")%string /\
        Field d = (probe env (getFieldTags f) "" "").2 /\
        Err d = Some cause)).
Proof.
  intros Hrun.
  destruct (Decode_error_forms lib env v h e h' Hrun)
    as [(Hk & -> & ->)|[(te & x & -> & Hk & ->)|(te & x & f & cause & -> & Hin & Hs & Hc & ->)]].
  - eexists. split; [reflexivity|]. left. by repeat split.
  - eexists. split; [reflexivity|]. right. left. exists te, x. by repeat split.
  - eexists. split; [reflexivity|]. right. right. exists te, x, f, cause.
    by repeat split.
Qed.

Lemma X10_witness :
  exists d,
    ofDecodeError (mkDecodeError "unable to decode value in field 'PORT'" "PORT"
                     (Some (NumError "ParseInt" "abc" ErrSyntax)))
    = ofDecodeError d /\
    ((Description d = "must decode to pointer" /\ Field d = "" /\ Err d = None /\
      Value_Kind (reflect_ValueOf (ptr_to Config 0)) <> reflect.Ptr /\
      [VStruct [VInt 5; VString "old"; VInt 7];
       VStruct [VInt 0; VString ""; VInt 0]] = config_heap) \/
     (exists te x,
        ptr_to Config 0 = Some (reflect.TPtr te, x) /\
        reflect.Type_Kind (Type_deref te) <> reflect.Struct /\
        Description d = ("cannot decode into value of type: "
                         ++ Type_String RefLib.lib (Type_deref te))%string /\
        Field d = "" /\ Err d = None) \/
     (exists te x f cause,
        ptr_to Config 0 = Some (reflect.TPtr te, x) /\
        f ∈ reflect.Type_fields (Type_deref te) /\
        skipped env_bad_port f = false /\
        (converted RefLib.lib (reflect.Typ f) (looked_up env_bad_port f)).2
        = Some cause /\
        Description d
        = ("unable to decode value in field '" ++ Field d ++ "'")%string /\
        Field d = (probe env_bad_port (getFieldTags f) "" "").2 /\
        Err d = Some cause)).
Proof.
  apply (X10_error_forms RefLib.lib env_bad_port (ptr_to Config 0) config_heap).
  vm_compute. reflexivity.
Defined.

(** X11: the message ([Error]) of an error returned by [Decode] is "must
    decode to pointer", or "cannot decode into value of type: " and the
    name of the type, or "unable to decode value in field '", the key,
    "': err " and the message of the cause. *)
Theorem X11_error_message (lib : Lib) (env : environ) (text : error -> string)
    (v : iface) (h : heap) (e : error) (h' : heap) :
  Decode lib env v h = Done (Some e) h' ->
  exists d, e = ofDecodeError d /\
    error_Error text e = DecodeError_Error text d /\
    (DecodeError_Error text d = "must decode to pointer" \/
     (exists T, DecodeError_Error text d
                = ("cannot decode into value of type: "
                   ++ Type_String lib T)%string) \/
     (exists cause,
        Err d = Some cause /\
        DecodeError_Error text d
        = (("unable to decode value in field '" ++ Field d ++ "'")
           ++ ": err " ++ error_Error text cause)%string)).
Proof.
  intros Hrun.
  destruct (Decode_error_forms lib env v h e h' Hrun)
    as [(Hk & -> & ->)|[(te & x & -> & Hk & ->)|(te & x & f & cause & -> & Hin & Hs & Hc & ->)]].
  - eexists. split; [reflexivity|]. split; [reflexivity|]. by left.
  - eexists. split; [reflexivity|]. split; [reflexivity|]. right. left. eauto.
  - eexists. split; [reflexivity|]. split; [reflexivity|]. right. right.
    exists cause. split; reflexivity.
Qed.

Lemma X11_witness :
  exists d,
    ofDecodeError (mkDecodeError "unable to decode value in field 'PORT'" "PORT"
                     (Some (NumError "ParseInt" "abc" ErrSyntax)))
    = ofDecodeError d /\
    error_Error (fun _ => "invalid syntax")
      (ofDecodeError (mkDecodeError "unable to decode value in field 'PORT'" "PORT"
                        (Some (NumError "ParseInt" "abc" ErrSyntax))))
    = DecodeError_Error (fun _ => "invalid syntax") d /\
    (DecodeError_Error (fun _ => "invalid syntax") d = "must decode to pointer" \/
     (exists T, DecodeError_Error (fun _ => "invalid syntax") d
                = ("cannot decode into value of type: "
                   ++ Type_String RefLib.lib T)%string) \/
     (exists cause,
        Err d = Some cause /\
        DecodeError_Error (fun _ => "invalid syntax") d
        = (("unable to decode value in field '" ++ Field d ++ "'")
           ++ ": err " ++ error_Error (fun _ => "invalid syntax") cause)%string)).
Proof.
  apply (X11_error_message RefLib.lib env_bad_port (fun _ => "invalid syntax")
           (ptr_to Config 0) config_heap _
           [VStruct [VInt 5; VString "old"; VInt 7];
            VStruct [VInt 0; VString ""; VInt 0]]).
  vm_compute. reflexivity.
Defined.

(** X12: [getFieldTags] never returns an empty list, and every key it
    returns is the declared name of the field or a piece of a tag that is
    not empty and holds no comma. *)
Theorem X12_keys_shape {T} (f : reflect.StructField_ T) :
  getFieldTags f <> [] /\
  forall k, k ∈ getFieldTags f ->
    k = reflect.Name f \/ (k <> EmptyString /\ comma_free k = true).
Proof.
  rewrite getFieldTags_spec. unfold resolve_keys_spec.
  destruct (decode_tag_keys f) as [|k0 ks] eqn:Hkeys.
  - destruct (decide (first_segment _ = EmptyString)) as [He|Hne].
    + split; [discriminate|]. intros k Hk.
      apply list_elem_of_singleton in Hk. by left.
    + split; [discriminate|]. intros k Hk.
      apply list_elem_of_singleton in Hk as ->. right.
      split; [exact Hne|apply first_segment_comma_free].
  - split; [discriminate|]. intros k Hk. right.
    rewrite <- Hkeys in Hk. unfold decode_tag_keys in Hk.
    apply list_elem_of_filter in Hk as [Hne Hin].
    split; [exact Hne|].
    pose proof (Split_pieces_comma_free
                  (reflect.Tag_Get (reflect.Tag f) "mpe")) as Hfree.
    rewrite Forall_forall in Hfree. by apply Hfree.
Qed.

(** X13: when the [mpe] tag of a field is a list of keys separated by
    commas (no key holds a comma, at least one is not empty),
    [getFieldTags] returns these keys in order, the empty ones left out;
    the [json] tag and the name of the field play no part. *)
Theorem X13_tag_round_trip {T} (f : reflect.StructField_ T) (keys : list string) :
  Forall (fun k => comma_free k = true) keys ->
  filter (fun k => k <> EmptyString) keys <> [] ->
  reflect.Tag_Get (reflect.Tag f) mapEnvTagName = comma_join keys ->
  getFieldTags f = filter (fun k => k <> EmptyString) keys.
Proof.
  intros Hfree Hne Htag.
  assert (Hkeys : keys <> []) by (intros ->; by apply Hne).
  rewrite getFieldTags_spec. unfold resolve_keys_spec, decode_tag_keys.
  unfold mapEnvTagName in Htag. rewrite Htag.
  rewrite (Split_comma_join keys Hkeys Hfree).
  by destruct (filter _ keys).
Qed.

Lemma X13_witness :
  getFieldTags
    (reflect.mkField "Value" "" [("json", "value,omitempty"); ("mpe", "A,,B")]
       (reflect.TBasic reflect.Tstring))
  = filter (fun k => k <> EmptyString) ["A"; ""; "B"].
Proof.
  apply (X13_tag_round_trip
           (reflect.mkField "Value" "" [("json", "value,omitempty"); ("mpe", "A,,B")]
              (reflect.TBasic reflect.Tstring)) ["A"; ""; "B"]).
  - repeat constructor.
  - vm_compute. discriminate.
  - reflexivity.
Defined.



(** X15: [Decode] reads the environment only at the keys of the exported
    fields of the record: two environments that agree on these keys give
    the same result and the same memory. *)
Theorem X15_only_the_keys_are_read (lib : Lib) (env1 env2 : environ)
    (v : iface) (h : heap) :
  (forall f k, f ∈ iface_fields v -> reflect.PkgPath f = EmptyString ->
     k ∈ getFieldTags f -> env1 !! k = env2 !! k) ->
  Decode lib env1 v h = Decode lib env2 v h.
Proof.
  intros Heq. apply Decode_env_ext. intros f Hin Hexp. left.
  apply probe_env_ext. intros k Hk. by apply (Heq f k).
Qed.

Lemma X15_witness :
  Decode RefLib.lib env_name (ptr_to Config 0) config_heap
  = Decode RefLib.lib (<["HOME" := "/root"]> env_name) (ptr_to Config 0) config_heap.
Proof.
  apply (X15_only_the_keys_are_read RefLib.lib env_name
           (<["HOME" := "/root"]> env_name) (ptr_to Config 0) config_heap).
  intros f k Hf _ Hk.
  cbn [iface_fields ptr_to Type_deref Config reflect.Type_fields] in Hf.
  repeat (apply elem_of_cons in Hf as [->|Hf]);
    [| | |by apply elem_of_nil in Hf];
    vm_compute in Hk;
    repeat (apply elem_of_cons in Hk as [->|Hk]);
    try (by apply elem_of_nil in Hk); vm_compute; reflexivity.
Defined.

(** X16: [Decode] on a value that is no pointer (the nil interface
    included) returns the error "must decode to pointer"; on a pointer that
    leads, through references that are all set, to a value that is no
    struct it returns the error "cannot decode into value of type: " with
    the name of the type.  In both cases the memory is untouched. *)
Theorem X16_not_a_pointer_to_a_struct (lib : Lib) (env : environ) (v : iface)
    (h : heap) :
  (Value_Kind (reflect_ValueOf v) <> reflect.Ptr ->
   Decode lib env v h
   = Done (Some (ofDecodeError
                   (newDecodeError "must decode to pointer" "" None))) h) /\
  (forall te x,
     v = Some (reflect.TPtr te, x) ->
     references_set h v ->
     reflect.Type_Kind (Type_deref te) <> reflect.Struct ->
     Decode lib env v h
     = Done (Some (ofDecodeError
                     (newDecodeError
                        ("cannot decode into value of type: "
                         ++ Type_String lib (Type_deref te)) "" None))) h).
Proof.
  split.
  - intros Hk. unfold Decode.
    destruct (reflect.Kind_eqb (Value_Kind (reflect_ValueOf v)) reflect.Ptr) eqn:He;
      [|reflexivity].
    exfalso. apply Hk. by destruct (Value_Kind (reflect_ValueOf v)).
  - intros te x -> Hset Hk. cbn [references_set] in Hset.
    destruct (deref_loop_chain_set (reflect.TPtr te)
                (Direct (reflect.TPtr te) x) h eq_refl Hset) as [val' Hrun].
    unfold Decode.
    cbn [reflect_ValueOf Value_Kind reflect.Type_Kind reflect.Kind_eqb negb
         reflect_TypeOf].
    rewrite (bind_Done _ _ _ _ _ Hrun). cbn [Type_deref].
    destruct (reflect.Kind_eqb (reflect.Type_Kind (Type_deref te)) reflect.Struct)
      eqn:He; [|reflexivity].
    exfalso. apply Hk. by destruct (reflect.Type_Kind (Type_deref te)).
Qed.

Lemma X16_witness :
  Decode RefLib.lib env_name (Some (Config, VStruct [VInt 5; VString "old"; VInt 7]))
    config_heap
  = Done (Some (ofDecodeError
                  (newDecodeError "must decode to pointer" "" None))) config_heap /\
  Decode RefLib.lib env_name (ptr_to (reflect.TBasic reflect.Tint) 0) [VInt 3]
  = Done (Some (ofDecodeError
                  (newDecodeError
                     ("cannot decode into value of type: "
                      ++ Type_String RefLib.lib
                           (Type_deref (reflect.TBasic reflect.Tint))) "" None)))
      [VInt 3].
Proof.
  split.
  - apply (proj1 (X16_not_a_pointer_to_a_struct RefLib.lib env_name
                    (Some (Config, VStruct [VInt 5; VString "old"; VInt 7]))
                    config_heap)).
    discriminate.
  - apply (proj2 (X16_not_a_pointer_to_a_struct RefLib.lib env_name
                    (ptr_to (reflect.TBasic reflect.Tint) 0) [VInt 3])
             (reflect.TBasic reflect.Tint) (VPtr (Some (0, [])))).
    + reflexivity.
    + exists (0, []). split; reflexivity.
    + discriminate.
Defined.

(** X17: a pointer to a pointer that is set is decoded as the inner
    pointer is: [Decode(&p)] and [Decode(p)] give the same result and the
    same memory when [p] is not nil. *)
Theorem X17_set_pointer_is_transparent (lib : Lib) (env : environ)
    (te : reflect.type) (a b : addr) (h : heap) :
  load h a = Some (VPtr (Some b)) ->
  Decode lib env (Some (reflect.TPtr (reflect.TPtr te), VPtr (Some a))) h
  = Decode lib env (Some (reflect.TPtr te, VPtr (Some b))) h.
Proof.
  intros Ha. unfold Decode.
  cbn [reflect_ValueOf Value_Kind reflect.Type_Kind reflect.Kind_eqb negb
       reflect_TypeOf].
  assert (Hwalk :
    deref_loop (reflect.TPtr (reflect.TPtr te))
      (Direct (reflect.TPtr (reflect.TPtr te)) (VPtr (Some a))) h
    = deref_loop (reflect.TPtr te) (Direct (reflect.TPtr te) (VPtr (Some b))) h).
  { rewrite !deref_loop_turn.
    assert (H1 : deref_turn (reflect.TPtr te)
                   (Direct (reflect.TPtr (reflect.TPtr te)) (VPtr (Some a))) h
                 = Done (Indirect (reflect.TPtr te) a) h) by reflexivity.
    rewrite (bind_Done _ _ _ _ _ H1).
    rewrite deref_loop_turn.
    assert (H2 : deref_turn te (Indirect (reflect.TPtr te) a) h
                 = Done (Indirect te b) h).
    { unfold deref_turn. cbn. unfold bind, deref. rewrite Ha. cbn.
      unfold deref. rewrite Ha. reflexivity. }
    rewrite (bind_Done _ _ _ _ _ H2).
    assert (H3 : deref_turn te (Direct (reflect.TPtr te) (VPtr (Some b))) h
                 = Done (Indirect te b) h) by reflexivity.
    by rewrite (bind_Done _ _ _ _ _ H3). }
  unfold bind at 1. rewrite Hwalk. reflexivity.
Qed.

Lemma X17_witness :
  Decode RefLib.lib env_good
    (Some (reflect.TPtr (reflect.TPtr Config), VPtr (Some (0, []))))
    [VPtr (Some (1, [])); VStruct [VInt 5; VString "old"; VInt 7]]
  = Decode RefLib.lib env_good (Some (reflect.TPtr Config, VPtr (Some (1, []))))
      [VPtr (Some (1, [])); VStruct [VInt 5; VString "old"; VInt 7]].
Proof.
  apply (X17_set_pointer_is_transparent RefLib.lib env_good Config (0, []) (1, [])).
  reflexivity.
Defined.

(** X18: the converter follows a pointer that is set: on a pointer to a
    variable that holds a set pointer [p], [decodeValue] does what it does
    on [p] itself (same error, same memory). *)
Theorem X18_converter_follows_set_pointer (lib : Lib) (s : string)
    (T : reflect.type) (a b : addr) (h : heap) :
  load h a = Some (VPtr (Some b)) ->
  decodeValue lib s
    (Direct (reflect.TPtr (reflect.TPtr T)) (VPtr (Some a))) h
  = decodeValue lib s (Direct (reflect.TPtr T) (VPtr (Some b))) h.
Proof.
  intros Ha. unfold decodeValue.
  rewrite <- (decodeValue_at_handle lib s T a b h Ha).
  set (v := Direct (reflect.TPtr (reflect.TPtr T)) (VPtr (Some a))).
  assert (HE : Value_Elem v h = Done (Indirect (reflect.TPtr T) a) h)
    by reflexivity.
  assert (HN : Value_IsNil v h = Done false h) by reflexivity.
  clearbody v.
  cbn [decodeValue_at].
  rewrite (bind_Done _ _ _ _ _ HE). cbn [Value_Kind reflect.Type_Kind].
  rewrite (bind_Done _ _ _ _ _ HN). rewrite !bind_ret_l.
  by rewrite (bind_Done _ _ _ _ _ HE).
Qed.

Lemma X18_witness :
  decodeValue RefLib.lib "42"
    (Direct (reflect.TPtr (reflect.TPtr (reflect.TBasic reflect.Tint)))
       (VPtr (Some (0, []))))
    [VPtr (Some (1, [])); VInt 7]
  = decodeValue RefLib.lib "42"
      (Direct (reflect.TPtr (reflect.TBasic reflect.Tint)) (VPtr (Some (1, []))))
      [VPtr (Some (1, [])); VInt 7].
Proof.
  apply (X18_converter_follows_set_pointer RefLib.lib "42"
           (reflect.TBasic reflect.Tint) (0, []) (1, [])).
  reflexivity.
Defined.
